(** * Permission requesters and the bar-code event handler of expo

    A shallow embedding of

    - [SimpleRequester.kt] (package [expo.modules.permissions.requesters]),
    - [EXCameraPermissionRequester.m] (iOS camera requester),
    - the [onObjectDetected] handler of the [BarCodeScanner] component,

    together with the properties the specification states about them. *)

From stdpp Require Import base option list gmap strings fin_maps.

Open Scope string_scope.
Open Scope list_scope.

(** ** Kotlin runtime pieces used by [SimpleRequester] *)

Module Kotlin.

(** The only exception the modelled code can raise: [Map.getValue] on a
    key that is absent from the map. *)
Inductive Throwable : Type :=
| NoSuchElementException (key : string).

(** A computation either returns a value or throws. *)
Inductive Result (A : Type) : Type :=
| Return (a : A)
| Throw (e : Throwable).
Arguments Return {A} a.
Arguments Throw {A} e.

#[global] Instance Result_ret : MRet Result := fun A a => Return a.
#[global] Instance Result_bind : MBind Result := fun A B f r =>
  match r with
  | Return a => f a
  | Throw e => Throw e
  end.

Definition returns {A} (r : Result A) : Prop := ∃ a, r = Return a.
Definition throws {A} (r : Result A) : Prop := ∃ e, r = Throw e.

(** [Map<K, V>.getValue(key)]: the value, or [NoSuchElementException]. *)
Definition getValue {V} (m : gmap string V) (key : string) : Result V :=
  match m !! key with
  | Some v => Return v
  | None => Throw (NoSuchElementException key)
  end.

(** [Iterable<T>.all(predicate)]: walks the elements in order and stops
    at the first one the predicate rejects; an empty collection gives
    [true].  An exception of the predicate propagates. *)
Fixpoint all {T} (predicate : T → Result bool) (l : list T) : Result bool :=
  match l with
  | [] => Return true
  | element :: rest =>
      b ← predicate element;
      if b : bool then all predicate rest else Return false
  end.

(** [mapOf(pairs)]: the pairs are put one after the other, so that a
    later pair overwrites an earlier one with the same key. *)
Definition mapOf {V} (pairs : list (string * V)) : gmap string V :=
  foldl (λ m kv, <[kv.1 := kv.2]> m) ∅ pairs.

End Kotlin.

(** ** [org.unimodules.interfaces.permissions] *)

Module PermissionsStatus.

Inductive t : Type := GRANTED | UNDETERMINED | DENIED.

#[global] Instance eq_dec : EqDecision t.
Proof. solve_decision. Defined.

(** Modelled from the spec: the [status] string of the enum
    [PermissionsStatus], whose declaration is not among the sources; the
    three strings are those of the response type of the bar-code scanner
    ([granted], [undetermined], [denied]). *)
Definition status (s : t) : string :=
  match s with
  | GRANTED => "granted"
  | UNDETERMINED => "undetermined"
  | DENIED => "denied"
  end.

End PermissionsStatus.

Module PermissionsResponse.

(** Modelled from the spec: the response of one system permission, a
    status and the [canAskAgain] flag; its declaration is not among the
    sources. *)
Record t : Type := mk { status : PermissionsStatus.t; canAskAgain : bool }.

(** Modelled from the spec: the keys and the constant of the companion
    object, named after the fields of the unified response. *)
Definition STATUS_KEY : string := "status".
Definition EXPIRES_KEY : string := "expires".
Definition CAN_ASK_AGAIN_KEY : string := "canAskAgain".
Definition PERMISSION_EXPIRES_NEVER : string := "never".

End PermissionsResponse.

(** ** [android.os.Bundle], as far as the requester uses it *)

Module Bundle.

Inductive value : Type :=
| VString (s : string)
| VBoolean (b : bool).

Abbreviation t := (gmap string value).

Definition putString (key s : string) (b : t) : t := <[key := VString s]> b.
Definition putBoolean (key : string) (v : bool) (b : t) : t :=
  <[key := VBoolean v]> b.

End Bundle.

(** ** [SimpleRequester] *)

Module SimpleRequester.

Import Kotlin.
Import PermissionsResponse (STATUS_KEY, EXPIRES_KEY, CAN_ASK_AGAIN_KEY,
                            PERMISSION_EXPIRES_NEVER).

(** [class SimpleRequester(vararg val permission: String)] *)
Record t : Type := mk { permission : list string }.

Definition getAndroidPermissions (this : t) : list string := permission this.

(** The [when] expression that computes the combined status string. *)
Definition combinedStatus (this : t)
    (permissionsResponse : gmap string PermissionsResponse.t) : Result string :=
  allGranted ← all (λ it, r ← getValue permissionsResponse it;
                          mret (bool_decide (PermissionsResponse.status r
                                             = PermissionsStatus.GRANTED)))
                   (getAndroidPermissions this);
  if allGranted : bool
  then mret (PermissionsStatus.status PermissionsStatus.GRANTED)
  else
    allDenied ← all (λ it, r ← getValue permissionsResponse it;
                           mret (bool_decide (PermissionsResponse.status r
                                              = PermissionsStatus.DENIED)))
                    (getAndroidPermissions this);
    if allDenied : bool
    then mret (PermissionsStatus.status PermissionsStatus.DENIED)
    else mret (PermissionsStatus.status PermissionsStatus.UNDETERMINED).

Definition parseAndroidPermissions (this : t)
    (permissionsResponse : gmap string PermissionsResponse.t) : Result Bundle.t :=
  let b0 : Bundle.t := ∅ in
  s ← combinedStatus this permissionsResponse;
  let b1 := Bundle.putString STATUS_KEY s b0 in
  let b2 := Bundle.putString EXPIRES_KEY PERMISSION_EXPIRES_NEVER b1 in
  c ← all (λ it, r ← getValue permissionsResponse it;
                 mret (PermissionsResponse.canAskAgain r))
          (getAndroidPermissions this);
  mret (Bundle.putBoolean CAN_ASK_AGAIN_KEY c b2).

End SimpleRequester.

(** ** [EXCameraPermissionRequester] (iOS) *)

Module AVFoundation.

Inductive AVAuthorizationStatus : Type :=
| AVAuthorizationStatusNotDetermined
| AVAuthorizationStatusRestricted
| AVAuthorizationStatusDenied
| AVAuthorizationStatusAuthorized.

Inductive AVMediaType : Type := AVMediaTypeVideo | AVMediaTypeAudio.

#[global] Instance AVMediaType_eq_dec : EqDecision AVMediaType.
Proof. solve_decision. Defined.

(** The authorization state [AVCaptureDevice] keeps per media type. *)
Abbreviation Authorization := (AVMediaType → AVAuthorizationStatus).

(** What [requestAccessForMediaType:completionHandler:] does on the side
    of the operating system: it may change the authorization state (the
    user answers a dialog) and passes [granted] to the completion handler,
    which it runs once.  The requester does not depend on how. *)
Abbreviation RequestAccess := (AVMediaType → Authorization → Authorization * bool).

End AVFoundation.

Module EXPermissions.

(** The status enumeration the requester assigns from. *)
Inductive EXPermissionStatus : Type :=
| EXPermissionStatusDenied
| EXPermissionStatusGranted
| EXPermissionStatusUndetermined.

(** Modelled from the spec: [+permissionStringForStatus:] of
    [EXPermissions], which is not among the sources; the strings are the
    three statuses of the unified response. *)
Definition permissionStringForStatus (status : EXPermissionStatus) : string :=
  match status with
  | EXPermissionStatusGranted => "granted"
  | EXPermissionStatusDenied => "denied"
  | EXPermissionStatusUndetermined => "undetermined"
  end.

(** Modelled from the spec: the constant [EXPermissionExpiresNever]. *)
Definition EXPermissionExpiresNever : string := "never".

End EXPermissions.

Module EXCameraPermissionRequester.

Import AVFoundation EXPermissions.

Abbreviation NSDictionary := (gmap string string).

(** [[NSBundle mainBundle]]: the entries of the application's Info.plist. *)
Record NSBundle : Type := { infoDictionary : gmap string string }.

Definition objectForInfoDictionaryKey (bundle : NSBundle) (key : string)
  : option string := infoDictionary bundle !! key.

(** A reference to the object that implements
    [EXPermissionRequesterDelegate]. *)
Inductive Delegate : Type := DelegateRef (address : nat).

(** The requester object: its [delegate] property, [nil] when unset. *)
Record t : Type := mk { delegate : option Delegate }.

(** What the requester does to the outside, in the order it does it.
    [UMFatal] reports the error and the method goes on. *)
Inductive Effect : Type :=
| UMFatal (message : string)
| authorizationStatusForMediaType (mediaType : AVMediaType)
| requestAccessForMediaType (mediaType : AVMediaType)
| resolve (value : option NSDictionary)
| permissionRequesterDidFinish (receiver : Delegate).

Definition missingUsageDescription : string :=
  "This app is missing either NSCameraUsageDescription or NSMicrophoneUsageDescription, so audio/video services will fail. Add one of these keys to your bundle's Info.plist.".

(** A pointer used as a condition: true unless [nil]. *)
Definition nonnil {A} (object : option A) : bool :=
  match object with Some _ => true | None => false end.

(** The [switch] of [+permissions]. *)
Definition statusForSystemStatus (systemStatus : AVAuthorizationStatus)
  : EXPermissionStatus :=
  match systemStatus with
  | AVAuthorizationStatusAuthorized => EXPermissionStatusGranted
  | AVAuthorizationStatusDenied
  | AVAuthorizationStatusRestricted => EXPermissionStatusDenied
  | AVAuthorizationStatusNotDetermined => EXPermissionStatusUndetermined
  end.

(** [+ (NSDictionary * )permissions]: the effects, then the dictionary. *)
Definition permissions (bundle : NSBundle) (authorization : Authorization)
  : list Effect * NSDictionary :=
  let cameraUsageDescription :=
    objectForInfoDictionaryKey bundle "NSCameraUsageDescription" in
  let microphoneUsageDescription :=
    objectForInfoDictionaryKey bundle "NSMicrophoneUsageDescription" in
  let '(effects, systemStatus) :=
    if negb (nonnil cameraUsageDescription && nonnil microphoneUsageDescription)
    then ([UMFatal missingUsageDescription], AVAuthorizationStatusDenied)
    else ([authorizationStatusForMediaType AVMediaTypeVideo],
          authorization AVMediaTypeVideo) in
  let status := statusForSystemStatus systemStatus in
  (effects,
   <["expires" := EXPermissionExpiresNever]>
     (<["status" := permissionStringForStatus status]> ∅)).

(** The completion handler passed to [requestAccessForMediaType:].
    [self] is what the weak reference taken by [UM_WEAKIFY] yields when
    [UM_STRONGIFY] reads it: [None] when the requester is gone, and then
    every message to it answers [nil] and does nothing. *)
Definition completionHandler (bundle : NSBundle) (authorization : Authorization)
    (self : option t) (granted : bool) : list Effect :=
  let '(effects, value) :=
    match self with
    | Some _ => let '(effects, value) := permissions bundle authorization in
                (effects, Some value)
    | None => ([], None)
    end in
  effects ++ [resolve value] ++
  match self ≫= delegate with
  | Some receiver => [permissionRequesterDidFinish receiver]
  | None => []
  end.

(** [- requestPermissionsWithResolver:rejecter:].  [self] is the requester
    as the completion handler finds it. *)
Definition requestPermissionsWithResolver (os : RequestAccess)
    (bundle : NSBundle) (authorization : Authorization) (self : option t)
  : list Effect :=
  let '(authorization', granted) := os AVMediaTypeVideo authorization in
  requestAccessForMediaType AVMediaTypeVideo
    :: completionHandler bundle authorization' self granted.

(** How many effects of a run are of a given kind. *)
Definition count (kind : Effect → bool) (run : list Effect) : nat :=
  length (filter (λ e, kind e) run).

Definition isResolve (e : Effect) : bool :=
  match e with resolve _ => true | _ => false end.

Definition isDidFinish (e : Effect) : bool :=
  match e with permissionRequesterDidFinish _ => true | _ => false end.

Definition isRequestAccess (e : Effect) : bool :=
  match e with requestAccessForMediaType _ => true | _ => false end.

(** The dictionary literal [+permissions] returns. *)
Definition dictionaryFor (status : EXPermissionStatus) : NSDictionary :=
  <["expires" := EXPermissionExpiresNever]>
    (<["status" := permissionStringForStatus status]> ∅).

(** The bundle declares both usage descriptions. *)
Definition declaresUsage (bundle : NSBundle) : bool :=
  nonnil (objectForInfoDictionaryKey bundle "NSCameraUsageDescription")
  && nonnil (objectForInfoDictionaryKey bundle "NSMicrophoneUsageDescription").

(** The calls to the delegate that end a run of the completion handler. *)
Definition notification (self : option t) : list Effect :=
  match self ≫= delegate with
  | Some receiver => [permissionRequesterDidFinish receiver]
  | None => []
  end.

End EXCameraPermissionRequester.

(** ** [BarCodeScanner]: the handler of scanned bar codes *)

Module BarCodeScanner.

Definition EVENT_THROTTLE_MS : Z := 500.

(** [BarCodeEvent]: [type], [data] and, by the index signature, further
    properties (kept as pairs of a name and a value in JSON text). *)
Record BarCodeEvent : Type := {
  type : string;
  data : string;
  properties : list (string * string)
}.

(** The two members the handler uses.  Each is an object made by [{}]:
    it has the properties assigned to it (its own) and inherits the rest
    from its prototype, [Object.prototype] at first.  [lastEvents] holds
    strings and [lastEventsTimes] holds [Date]s, a time being the number a
    [Date] converts to, in milliseconds.  [lastEventsTimesPrototype] is
    the [Date] that an assignment to [__proto__] has made the prototype of
    [lastEventsTimes], if any; the prototype of [lastEvents] never
    changes, since the assignment of a string to [__proto__] is ignored. *)
Record t : Type := mk {
  lastEvents : gmap string string;
  lastEventsTimes : gmap string Z;
  lastEventsTimesPrototype : option Z
}.

Definition initial : t := mk ∅ ∅ None.

(** A string used as a condition is true unless it is empty. *)
Definition truthy (s : string) : bool := negb (bool_decide (s = "")).

(** [this.lastEventsTimes[key]] as far as the subtraction from
    [Date.now()] can use it: the time of the own [Date]; under
    [__proto__], when not an own property, the prototype, which counts if
    it is a [Date]; [None] for what is [undefined] or an inherited
    function, which is false or gives [NaN]. *)
Definition readTime (this : t) (key : string) : option Z :=
  match lastEventsTimes this !! key with
  | Some time => Some time
  | None => if decide (key = "__proto__") then lastEventsTimesPrototype this
            else None
  end.

(** [this.lastEventsTimes[key] = new Date()]: an own property is made or
    overwritten, except that [__proto__], when not an own property, is the
    accessor of [Object.prototype], which makes the [Date] the prototype. *)
Definition assignTime (key : string) (date : Z) (this : t) : t :=
  if decide (key = "__proto__" ∧ lastEventsTimes this !! key = None)
  then mk (lastEvents this) (lastEventsTimes this) (Some date)
  else mk (lastEvents this) (<[key := date]> (lastEventsTimes this))
          (lastEventsTimesPrototype this).

(** [this.lastEvents[key] = JSON.stringify(nativeEvent)]: likewise, and
    the accessor ignores a value that is no object. *)
Definition assignEvent (key : string) (text : string) (this : t) : t :=
  if decide (key = "__proto__" ∧ lastEvents this !! key = None)
  then this
  else mk (<[key := text]> (lastEvents this)) (lastEventsTimes this)
          (lastEventsTimesPrototype this).

Section handler.

(** [JSON.stringify] on events, and the user's callbacks. *)
Context (JSON_stringify : BarCodeEvent → string).
Context {Callback : Type}.

(** The condition of the first [if]; [now] is what [Date.now()] reads.
    [this.lastEvents[type]], when not an own property, is [undefined] or
    something inherited (a function, or the prototype under [__proto__]):
    never a string, so that [===] with the serialization fails. *)
Definition isDuplicate (this : t) (nativeEvent : BarCodeEvent) (now : Z) : bool :=
  match lastEvents this !! type nativeEvent with
  | Some lastEvent =>
      truthy lastEvent
      && bool_decide (JSON_stringify nativeEvent = lastEvent)
      && match readTime this (type nativeEvent) with
         | Some lastEventTime => bool_decide (now - lastEventTime < EVENT_THROTTLE_MS)%Z
         | None => false
         end
  | None => false
  end.

(** One call of the function [onObjectDetected(callback)] returns.
    [now] is what [Date.now()] reads, [date] what [new Date()] reads
    once the callback has returned.  The result is the new state and
    the calls made: the callback with its argument.  What the callback
    does itself is not modelled; it returns and leaves the event as it is. *)
Definition onObjectDetected (callback : option Callback)
    (nativeEvent : BarCodeEvent) (now date : Z) (this : t)
  : t * list (Callback * BarCodeEvent) :=
  if isDuplicate this nativeEvent now then (this, [])
  else
    match callback with
    | Some f =>
        (assignEvent (type nativeEvent) (JSON_stringify nativeEvent)
           (assignTime (type nativeEvent) date this),
         [(f, nativeEvent)])
    | None => (this, [])
    end.

End handler.

(** An event reaching the handler: the callback the component was
    rendered with, the event, and what the two clock reads give. *)
Record Arrival (Callback : Type) : Type := {
  callback : option Callback;
  nativeEvent : BarCodeEvent;
  now : Z;
  date : Z
}.
Arguments callback {Callback} _.
Arguments nativeEvent {Callback} _.
Arguments now {Callback} _.
Arguments date {Callback} _.

(** A delivered event: the argument of a call of the callback, with the
    time recorded when the callback returned. *)
Abbreviation Delivery := (BarCodeEvent * Z)%type.

(** The handler on one arrival, keeping the log of deliveries. *)
Definition receive (JSON_stringify : BarCodeEvent → string) {Callback}
    (acc : t * list Delivery) (a : Arrival Callback) : t * list Delivery :=
  let '(this, calls) :=
    onObjectDetected JSON_stringify (callback a) (nativeEvent a) (now a) (date a)
                     acc.1 in
  (this, acc.2 ++ ((λ _, (nativeEvent a, date a)) <$> calls)).

(** The life of a component: the arrivals in order, from the state the
    class initialises. *)
Definition receiveAll (JSON_stringify : BarCodeEvent → string) {Callback}
    (arrivals : list (Arrival Callback)) : t * list Delivery :=
  foldl (receive JSON_stringify) (initial, []) arrivals.

(** The last delivered event of a type. *)
Definition lastDelivered (key : string) (log : list Delivery) : option Delivery :=
  last (filter (λ d, type d.1 = key) log).

(** The two members record, for every type but [__proto__], the
    serialization and the time of the last delivered event of that type;
    they have no own property [__proto__]. *)
Definition records (JSON_stringify : BarCodeEvent → string)
    (this : t) (log : list Delivery) : Prop :=
  (∀ key, key ≠ "__proto__" →
          lastEvents this !! key
          = (λ d : Delivery, JSON_stringify d.1) <$> lastDelivered key log
          ∧ lastEventsTimes this !! key = snd <$> lastDelivered key log)
  ∧ lastEvents this !! "__proto__" = None
  ∧ lastEventsTimes this !! "__proto__" = None.

End BarCodeScanner.

(** ** What the specification says, in its own words *)

Module Spec.

Import PermissionsStatus.

(** The combination algorithm: all granted, else all denied, else
    undetermined. *)
Definition combine (statuses : list PermissionsStatus.t) : PermissionsStatus.t :=
  if forallb (λ s, bool_decide (s = GRANTED)) statuses then GRANTED
  else if forallb (λ s, bool_decide (s = DENIED)) statuses then DENIED
  else UNDETERMINED.

(** The table of the two-permission case. *)
Definition truth_table (s1 s2 : PermissionsStatus.t) : PermissionsStatus.t :=
  match s1, s2 with
  | GRANTED, GRANTED => GRANTED
  | DENIED, DENIED => DENIED
  | _, _ => UNDETERMINED
  end.

(** The logical AND over a list of flags. *)
Definition logical_and (flags : list bool) : bool := foldr andb true flags.

(** The constituent responses: those the map holds for the permissions
    the requester lists, in the order of the list. *)
Definition constituents {V} (permissions : list string) (m : gmap string V)
  : list V := omap (λ p, m !! p) permissions.

(** The map covers the permissions the requester needs. *)
Definition covers {V} (permissions : list string) (m : gmap string V) : Prop :=
  ∀ p, p ∈ permissions → is_Some (m !! p).

(** An incoming event is a duplicate: its type is that of a delivered
    event, its serialization equals the serialization of the last
    delivered event of that type, and it arrives less than 500 ms after
    it. *)
Definition duplicate (JSON_stringify : BarCodeScanner.BarCodeEvent → string)
    (log : list BarCodeScanner.Delivery)
    (nativeEvent : BarCodeScanner.BarCodeEvent) (now : Z) : Prop :=
  ∃ lastEvent lastTime,
    BarCodeScanner.lastDelivered (BarCodeScanner.type nativeEvent) log
    = Some (lastEvent, lastTime)
    ∧ JSON_stringify nativeEvent = JSON_stringify lastEvent
    ∧ (now - lastTime < 500)%Z.

End Spec.

(** The scan every [all { permissionsResponse.getValue(it)... }] of the
    requester is an instance of. *)
Definition scan {V} (m : gmap string V) (f : V → bool) (l : list string)
  : Kotlin.Result bool :=
  Kotlin.all (λ it, r ← Kotlin.getValue m it; mret (f r)) l.

(** Whether a map covers a list of permissions can be computed. *)
#[global] Instance covers_dec {V} (l : list string) (m : gmap string V) :
  Decision (Spec.covers l m).
Proof.
  refine (cast_if (decide (Forall (λ p, is_Some (m !! p)) l)));
    unfold Spec.covers; by rewrite Forall_forall in *.
Defined.

(** The predicate of the two status scans. *)
Definition statusIs (s : PermissionsStatus.t) (r : PermissionsResponse.t) : bool :=
  bool_decide (PermissionsResponse.status r = s).

(** The bundle [parseAndroidPermissions] fills: three [put] calls on an
    empty bundle. *)
Definition bundleOf (s : string) (c : bool) : Bundle.t :=
  Bundle.putBoolean PermissionsResponse.CAN_ASK_AGAIN_KEY c
    (Bundle.putString PermissionsResponse.EXPIRES_KEY
       PermissionsResponse.PERMISSION_EXPIRES_NEVER
       (Bundle.putString PermissionsResponse.STATUS_KEY s ∅)).

(** ** Concrete inputs used below *)

Module Examples.

Import PermissionsStatus.

Definition CAMERA : string := "android.permission.CAMERA".
Definition RECORD_AUDIO : string := "android.permission.RECORD_AUDIO".
Definition READ_CONTACTS : string := "android.permission.READ_CONTACTS".

Definition camera_and_audio : SimpleRequester.t :=
  SimpleRequester.mk [CAMERA; RECORD_AUDIO].

Definition granted_then_denied : list (string * PermissionsResponse.t) :=
  [(CAMERA, PermissionsResponse.mk GRANTED true);
   (RECORD_AUDIO, PermissionsResponse.mk DENIED false)].

Definition both_granted : list (string * PermissionsResponse.t) :=
  [(CAMERA, PermissionsResponse.mk GRANTED true);
   (RECORD_AUDIO, PermissionsResponse.mk GRANTED true)].

Import AVFoundation EXCameraPermissionRequester.

(** An Info.plist without usage descriptions, and one with both. *)
Definition bare_bundle : NSBundle := {| infoDictionary := ∅ |}.

Definition complete_bundle : NSBundle :=
  {| infoDictionary :=
       <["NSCameraUsageDescription" := "Scan codes"]>
         (<["NSMicrophoneUsageDescription" := "Record sound"]> ∅) |}.

Definition all_authorized : Authorization := λ _, AVAuthorizationStatusAuthorized.
Definition none_determined : Authorization := λ _, AVAuthorizationStatusNotDetermined.

(** An operating system on which the user allows what is undetermined
    and nothing else changes. *)
Definition user_allows : RequestAccess := λ mediaType authorization,
  match authorization mediaType with
  | AVAuthorizationStatusNotDetermined =>
      (λ t, if decide (t = mediaType) then AVAuthorizationStatusAuthorized
            else authorization t, true)
  | AVAuthorizationStatusAuthorized => (authorization, true)
  | _ => (authorization, false)
  end.

(** A stand-in for [JSON.stringify] that the examples can evaluate: the
    type and the data between braces. *)
Definition stringify (e : BarCodeScanner.BarCodeEvent) : string :=
  "{type:" ++ BarCodeScanner.type e ++ ",data:" ++ BarCodeScanner.data e ++ "}".

Definition qr_code : BarCodeScanner.BarCodeEvent :=
  {| BarCodeScanner.type := "org.iso.QRCode";
     BarCodeScanner.data := "https://expo.io";
     BarCodeScanner.properties := [] |}.

Definition with_delegate : EXCameraPermissionRequester.t :=
  EXCameraPermissionRequester.mk (Some (DelegateRef 1)).
Definition without_delegate : EXCameraPermissionRequester.t :=
  EXCameraPermissionRequester.mk None.

End Examples.

(** ** [SimpleRequester] on a map that keeps its entries in order *)

Module LinkedHashMap.

(** The map Kotlin's [mapOf] and [mutableMapOf] build: the entries in the
    order of insertion, no key twice. *)
Definition t (V : Type) : Type := list (string * V).

Definition wellFormed {V} (m : t V) : Prop := NoDup m.*1.

(** [get(key)]: the value of the entry with that key, found by going
    through the entries. *)
Fixpoint get {V} (m : t V) (key : string) : option V :=
  match m with
  | [] => None
  | (k, v) :: rest => if decide (k = key) then Some v else get rest key
  end.

(** [getValue(key)] *)
Definition getValue {V} (m : t V) (key : string) : Kotlin.Result V :=
  match get m key with
  | Some v => Kotlin.Return v
  | None => Kotlin.Throw (Kotlin.NoSuchElementException key)
  end.

End LinkedHashMap.

Module SimpleRequesterOnEntries.

Import Kotlin.
Import PermissionsResponse (STATUS_KEY, EXPIRES_KEY, CAN_ASK_AGAIN_KEY,
                            PERMISSION_EXPIRES_NEVER).
Import SimpleRequester (getAndroidPermissions).

(** [parseAndroidPermissions] as in [SimpleRequester], its argument being
    the map with its entries in order. *)
Definition parseAndroidPermissions (this : SimpleRequester.t)
    (permissionsResponse : LinkedHashMap.t PermissionsResponse.t)
  : Result Bundle.t :=
  let b0 : Bundle.t := ∅ in
  s ← (allGranted ← all (λ it, r ← LinkedHashMap.getValue permissionsResponse it;
                               mret (bool_decide (PermissionsResponse.status r
                                                  = PermissionsStatus.GRANTED)))
                        (getAndroidPermissions this);
       if allGranted : bool
       then mret (PermissionsStatus.status PermissionsStatus.GRANTED)
       else
         allDenied ← all (λ it, r ← LinkedHashMap.getValue permissionsResponse it;
                                mret (bool_decide (PermissionsResponse.status r
                                                   = PermissionsStatus.DENIED)))
                         (getAndroidPermissions this);
         if allDenied : bool
         then mret (PermissionsStatus.status PermissionsStatus.DENIED)
         else mret (PermissionsStatus.status PermissionsStatus.UNDETERMINED));
  let b1 := Bundle.putString STATUS_KEY s b0 in
  let b2 := Bundle.putString EXPIRES_KEY PERMISSION_EXPIRES_NEVER b1 in
  c ← all (λ it, r ← LinkedHashMap.getValue permissionsResponse it;
                 mret (PermissionsResponse.canAskAgain r))
          (getAndroidPermissions this);
  mret (Bundle.putBoolean CAN_ASK_AGAIN_KEY c b2).

End SimpleRequesterOnEntries.

(** ** [BarCodeScanner.scanFromURLAsync] *)

Module ScanFromURL.

(** What the caller passes for [barCodeTypes], when it passes something:
    an array of types, or a value that is no array ([null], a string...),
    which the declared type forbids and the two [Array.isArray] tests let
    through. *)
Inductive Value : Type :=
| array (elements : list string)
| notArray (tag : nat).

(** What the function reads from its surroundings: whether the native
    module has a [scanFromURLAsync], [Platform.OS], [BarCodeType.qr] and
    [Object.values(BarCodeType)]. *)
Record Environment : Type := {
  scanFromURLAsync_defined : bool;
  Platform_OS : string;
  BarCodeType_qr : string;
  BarCodeType_values : list string
}.

Inductive Error : Type :=
| UnavailabilityError (moduleName propertyName : string)
| JSError (message : string).

(** How the returned promise settles: rejected with an error thrown here,
    or as the promise of the native [scanFromURLAsync] called with these
    arguments does. *)
Inductive Outcome : Type :=
| throws (e : Error)
| native (url : string) (barCodeTypes : Value).

Definition isArray (v : Value) : bool :=
  match v with array _ => true | notArray _ => false end.

(** [barCodeTypes.length] as a condition and [barCodeTypes.includes(x)],
    both used on arrays only. *)
Definition hasLength (v : Value) : bool :=
  match v with array [] => false | _ => true end.

Definition includes (v : Value) (x : string) : bool :=
  match v with array elements => bool_decide (x ∈ elements) | notArray _ => false end.

(** [static async scanFromURLAsync(url, barCodeTypes = Object.values(BarCodeType))];
    [None] is the omitted (or [undefined]) argument, which the default
    replaces. *)
Definition scanFromURLAsync (env : Environment) (url : string)
    (argument : option Value) : Outcome :=
  let barCodeTypes := default (array (BarCodeType_values env)) argument in
  if negb (scanFromURLAsync_defined env)
  then throws (UnavailabilityError "expo-barcode-scanner" "scanFromURLAsync")
  else if isArray barCodeTypes && negb (hasLength barCodeTypes)
  then throws (JSError "No barCodeTypes specified; provide at least one barCodeType for scanner")
  else if bool_decide (Platform_OS env = "ios")
  then
    if isArray barCodeTypes && negb (includes barCodeTypes (BarCodeType_qr env))
    then throws (JSError "Only QR type is supported by scanFromURLAsync() on iOS")
    else native url (array [BarCodeType_qr env])
  else native url barCodeTypes.

End ScanFromURL.

(** ** [BarCodeScanner.convertProp] and [convertNativeProps] *)

Module NativeProps.

(** The value of a prop, as far as [convertProp] tells values apart: a
    string, or something [typeof] does not call a string. *)
Inductive Value : Type :=
| VUndefined
| VString (s : string)
| VNumber (n : Z)
| VObject (reference : nat).

(** A plain object: the properties it owns, such as the constants of
    [Type]. *)
Abbreviation Table := (gmap string Value).

(** What the JavaScript runtime provides and the file does not: the
    object a plain object answers with under a name it does not own,
    inherited from [Object.prototype] ([constructor], [toString] and the
    like are functions, and [__proto__] answers [Object.prototype]
    itself), and the properties of those objects. *)
Record Runtime : Type := {
  inherited : string → option nat;
  property : nat → string → Value
}.

(** [object[name]] on a plain object. *)
Definition get (runtime : Runtime) (object : Table) (name : string) : Value :=
  match object !! name with
  | Some value => value
  | None =>
      match inherited runtime name with
      | Some reference => VObject reference
      | None => VUndefined
      end
  end.

(** [static ConversionTables = { type: Type }]: its own property. *)
Definition ConversionTables (Type_ : Table) : gmap string Table :=
  {[ "type" := Type_ ]}.

(** [convertProp(value, key)].  [ConversionTables[key]] is [Type] under
    [type], an inherited object under an inherited name, and [undefined]
    otherwise; an object is true as a condition, and the value returned is
    its property named by the string. *)
Definition convertProp (runtime : Runtime) (Type_ : Table)
    (value : Value) (key : string) : Value :=
  match value with
  | VString s =>
      match ConversionTables Type_ !! key with
      | Some table => get runtime table s
      | None =>
          match inherited runtime key with
          | Some reference => property runtime reference s
          | None => value
          end
      end
  | _ => value
  end.

(** [convertNativeProps(props)]: lodash's [mapValues] builds an object with
    the same keys, each value replaced by what the function gives for the
    value and the key. *)
Definition convertNativeProps (runtime : Runtime) (Type_ : Table)
    (props : gmap string Value) : gmap string Value :=
  map_imap (λ key value, Some (convertProp runtime Type_ value key)) props.

End NativeProps.

(** ** Further concrete inputs *)

Module Cases.

Import AVFoundation EXCameraPermissionRequester.

(** The camera is authorized, the microphone is denied. *)
Definition camera_only : Authorization := λ mediaType,
  match mediaType with
  | AVMediaTypeVideo => AVAuthorizationStatusAuthorized
  | AVMediaTypeAudio => AVAuthorizationStatusDenied
  end.

(** An operating system on which the user refuses what is undetermined. *)
Definition user_refuses : RequestAccess := λ mediaType authorization,
  match authorization mediaType with
  | AVAuthorizationStatusNotDetermined =>
      (λ t, if decide (t = mediaType) then AVAuthorizationStatusDenied
            else authorization t, false)
  | AVAuthorizationStatusAuthorized => (authorization, true)
  | _ => (authorization, false)
  end.

(** The same, except that it passes [granted] as true. *)
Definition user_refuses_flag_set : RequestAccess := λ mediaType authorization,
  ((user_refuses mediaType authorization).1, true).

Import ScanFromURL.

Definition on_ios : Environment :=
  {| scanFromURLAsync_defined := true; Platform_OS := "ios";
     BarCodeType_qr := "org.iso.QRCode";
     BarCodeType_values := ["org.iso.QRCode"; "org.gs1.EAN-13"] |}.

Definition on_android : Environment :=
  {| scanFromURLAsync_defined := true; Platform_OS := "android";
     BarCodeType_qr := "256";
     BarCodeType_values := ["256"; "32"] |}.

Import NativeProps.

Definition camera_types : Table :=
  <["front" := VNumber 1]> (<["back" := VNumber 2]> ∅).

(** A part of a runtime: of what plain objects inherit, the constructor
    (the function [Object], whose [name] is a string), [toString] and
    [__proto__]. *)
Definition sample_runtime : Runtime :=
  {| inherited := λ name,
       if decide (name = "constructor") then Some 100%nat
       else if decide (name = "toString") then Some 101%nat
       else if decide (name = "__proto__") then Some 102%nat
       else None;
     property := λ reference name,
       if decide (reference = 100%nat ∧ name = "name") then VString "Object"
       else if decide (reference = 101%nat ∧ name = "name") then VString "toString"
       else VUndefined |}.

Definition scanner_props : gmap string NativeProps.Value :=
  <["type" := VString "front"]>
    (<["barCodeTypes" := VObject 1]> (<["testID" := VString "scanner"]> ∅)).

Import BarCodeScanner.

Definition ean_code : BarCodeEvent :=
  {| type := "org.gs1.EAN-13"; data := "4006381333931"; properties := [] |}.

Definition proto_code : BarCodeEvent :=
  {| type := "__proto__"; data := "4006381333931"; properties := [] |}.

End Cases.

(** * Properties *)

(** ** The Kotlin helpers *)

Section kotlin_facts.

Import Kotlin.
Context {V : Type}.
Implicit Types (m : gmap string V) (f : V → bool) (l : list string).

Lemma scan_nil m f : scan m f [] = Return true.
Proof. reflexivity. Qed.

Lemma scan_cons_present m f p l r :
  m !! p = Some r →
  scan m f (p :: l) = if f r then scan m f l else Return false.
Proof. intros Hp. unfold scan, getValue. simpl. by rewrite Hp. Qed.

Lemma scan_cons_absent m f p l :
  m !! p = None → scan m f (p :: l) = Throw (NoSuchElementException p).
Proof. intros Hp. unfold scan, getValue. simpl. by rewrite Hp. Qed.

Lemma covers_cons p l m :
  Spec.covers (p :: l) m ↔ is_Some (m !! p) ∧ Spec.covers l m.
Proof.
  unfold Spec.covers. split.
  - intros H. split; [apply H; left | intros q Hq; apply H; by right].
  - intros [Hp Hl] q Hq. apply elem_of_cons in Hq as [-> | Hq]; auto.
Qed.

(** With every key present the scan is total and is the conjunction. *)
Lemma scan_covers m f l :
  Spec.covers l m → scan m f l = Return (forallb f (Spec.constituents l m)).
Proof.
  induction l as [| p l IH]; intros Hc; [done |].
  apply covers_cons in Hc as [[r Hr] Hc].
  rewrite (scan_cons_present _ _ _ _ _ Hr). unfold Spec.constituents. simpl.
  rewrite Hr. simpl. destruct (f r); [by apply IH | done].
Qed.

(** A scan that returns has computed the conjunction over the responses
    the map holds, whether or not every key is present. *)
Lemma scan_returns m f l c :
  scan m f l = Return c → c = forallb f (Spec.constituents l m).
Proof.
  revert c. induction l as [| p l IH]; intros c H.
  - by inversion H.
  - unfold Spec.constituents. simpl. destruct (m !! p) as [r |] eqn:Hp.
    + rewrite (scan_cons_present _ _ _ _ _ Hp) in H. simpl.
      destruct (f r); [by apply IH | by inversion H].
    + by rewrite (scan_cons_absent _ _ _ _ Hp) in H.
Qed.

(** The scan up to the first absent key: it throws for that key when no
    response before it stops the scan, and returns [false] otherwise. *)
Lemma scan_first_absent m f pre q post :
  Spec.covers pre m → m !! q = None →
  scan m f (pre ++ q :: post) =
    if forallb f (Spec.constituents pre m)
    then Throw (NoSuchElementException q) else Return false.
Proof.
  induction pre as [| p pre IH]; intros Hc Hq.
  - simpl. by apply scan_cons_absent.
  - apply covers_cons in Hc as [[r Hr] Hc]. simpl.
    rewrite (scan_cons_present _ _ _ _ _ Hr). unfold Spec.constituents. simpl.
    rewrite Hr. simpl. destruct (f r); [by apply IH | done].
Qed.

Lemma forallb_constituents_true m f l :
  Spec.covers l m →
  forallb f (Spec.constituents l m) = true ↔
  ∀ p r, p ∈ l → m !! p = Some r → f r = true.
Proof.
  induction l as [| p l IH]; intros Hc.
  - split; [intros _ p r Hp; by apply elem_of_nil in Hp | done].
  - apply covers_cons in Hc as [[r Hr] Hc]. unfold Spec.constituents. simpl.
    rewrite Hr. simpl. rewrite andb_true_iff, (IH Hc). split.
    + intros [Hf Hl] q r' Hq Hq'. apply elem_of_cons in Hq as [-> | Hq].
      * congruence.
      * eauto.
    + intros H. split; [apply (H p); [left | done] |].
      intros q r' Hq. apply H. by right.
Qed.

(** What [mapOf] holds for a key: the last pair with that key. *)
Lemma mapOf_snoc (pairs : list (string * V)) k v :
  mapOf (pairs ++ [(k, v)]) = <[k := v]> (mapOf pairs).
Proof. unfold mapOf. by rewrite foldl_app. Qed.

Lemma mapOf_lookup_NoDup (pairs : list (string * V)) k v :
  NoDup pairs.*1 → mapOf pairs !! k = Some v ↔ (k, v) ∈ pairs.
Proof.
  induction pairs as [| [k' v'] pairs IH] using rev_ind; intros Hnd.
  - unfold mapOf. simpl. rewrite lookup_empty. split; [done |].
    intros H. by apply elem_of_nil in H.
  - rewrite mapOf_snoc. rewrite fmap_app in Hnd. simpl in Hnd.
    apply NoDup_app in Hnd as (Hnd & Hfresh & _).
    rewrite elem_of_app, list_elem_of_singleton.
    destruct (decide (k' = k)) as [-> | Hne].
    + rewrite lookup_insert_eq. split.
      * intros [= ->]. by right.
      * intros [Hin | [= ->]]; [| done]. exfalso.
        apply (Hfresh k); [| by left].
        apply list_elem_of_fmap. by exists (k, v).
    + rewrite lookup_insert_ne by done. rewrite (IH Hnd). split.
      * by left.
      * intros [Hin | [= -> ->]]; done.
Qed.

(** Two lists of pairs with distinct keys that are permutations of one
    another build the same map. *)
Lemma mapOf_Permutation (pairs1 pairs2 : list (string * V)) :
  NoDup pairs1.*1 → pairs1 ≡ₚ pairs2 → mapOf pairs1 = mapOf pairs2.
Proof.
  intros Hnd Hp. assert (Hnd2 : NoDup pairs2.*1) by by rewrite <- Hp.
  apply map_eq. intros k. apply option_eq. intros v.
  rewrite !mapOf_lookup_NoDup by done. by rewrite Hp.
Qed.

End kotlin_facts.

(** ** [SimpleRequester.parseAndroidPermissions] *)

Section simple_requester_facts.

Import Kotlin PermissionsStatus.
Import SimpleRequester.
Import PermissionsResponse (STATUS_KEY, EXPIRES_KEY, CAN_ASK_AGAIN_KEY,
                            PERMISSION_EXPIRES_NEVER, canAskAgain).

Implicit Types (this : SimpleRequester.t)
               (m : gmap string PermissionsResponse.t).

Lemma combinedStatus_unfold this m :
  combinedStatus this m =
    (g ← scan m (statusIs GRANTED) (permission this);
     if g : bool then Return (status GRANTED)
     else d ← scan m (statusIs DENIED) (permission this);
          if d : bool then Return (status DENIED)
          else Return (status UNDETERMINED)).
Proof. reflexivity. Qed.

Lemma parse_unfold this m :
  parseAndroidPermissions this m =
    (s ← combinedStatus this m;
     c ← scan m canAskAgain (permission this);
     Return (bundleOf s c)).
Proof. reflexivity. Qed.

Lemma bundleOf_status s c : bundleOf s c !! STATUS_KEY = Some (Bundle.VString s).
Proof. unfold bundleOf, Bundle.putBoolean, Bundle.putString. by simplify_map_eq. Qed.

Lemma bundleOf_expires s c :
  bundleOf s c !! EXPIRES_KEY = Some (Bundle.VString PERMISSION_EXPIRES_NEVER).
Proof. unfold bundleOf, Bundle.putBoolean, Bundle.putString. by simplify_map_eq. Qed.

Lemma bundleOf_canAskAgain s c :
  bundleOf s c !! CAN_ASK_AGAIN_KEY = Some (Bundle.VBoolean c).
Proof. unfold bundleOf, Bundle.putBoolean, Bundle.putString. by simplify_map_eq. Qed.

Lemma bundleOf_dom s c :
  dom (bundleOf s c) = {[STATUS_KEY; EXPIRES_KEY; CAN_ASK_AGAIN_KEY]}.
Proof.
  unfold bundleOf, Bundle.putBoolean, Bundle.putString.
  rewrite !dom_insert_L, dom_empty_L. set_solver.
Qed.

(** A call that returns has returned from the status scans and from the
    flag scan, and the bundle holds what they computed. *)
Lemma parse_returns_inv this m b :
  parseAndroidPermissions this m = Return b →
  ∃ s c, combinedStatus this m = Return s
         ∧ scan m canAskAgain (permission this) = Return c
         ∧ b = bundleOf s c.
Proof.
  rewrite parse_unfold. intros H.
  destruct (combinedStatus this m) as [s |] eqn:Hs; [| done]. simpl in H.
  destruct (scan m canAskAgain (permission this)) as [c |] eqn:Hc; [| done].
  simpl in H. inversion H. by exists s, c.
Qed.

Lemma combinedStatus_returns_one_of_three this m s :
  combinedStatus this m = Return s →
  s = status GRANTED ∨ s = status DENIED ∨ s = status UNDETERMINED.
Proof.
  rewrite combinedStatus_unfold. intros H.
  destruct (scan m (statusIs GRANTED) (permission this)) as [[] |]; simpl in H;
    [inversion H; auto | | done].
  destruct (scan m (statusIs DENIED) (permission this)) as [[] |]; simpl in H;
    inversion H; auto.
Qed.

Lemma forallb_statusIs s (l : list PermissionsResponse.t) :
  forallb (statusIs s) l
  = forallb (λ x, bool_decide (x = s)) (PermissionsResponse.status <$> l).
Proof. induction l as [| r l IH]; [done |]. simpl. by rewrite IH. Qed.

Lemma forallb_logical_and (l : list PermissionsResponse.t) :
  forallb canAskAgain l = Spec.logical_and (canAskAgain <$> l).
Proof. induction l as [| r l IH]; [done |]. simpl. by rewrite IH. Qed.

(** With a covering map the call is total, and its bundle holds the
    status of the specification's algorithm and the conjunction of the
    flags. *)
Lemma parse_covers this m :
  Spec.covers (permission this) m →
  parseAndroidPermissions this m =
    Return (bundleOf
              (status (Spec.combine (PermissionsResponse.status
                                       <$> Spec.constituents (permission this) m)))
              (Spec.logical_and (canAskAgain
                                   <$> Spec.constituents (permission this) m))).
Proof.
  intros Hc. rewrite parse_unfold, combinedStatus_unfold.
  rewrite !(scan_covers _ _ _ Hc). simpl.
  rewrite !forallb_statusIs, forallb_logical_and. unfold Spec.combine.
  destruct (forallb _ _); [done |]. simpl. by destruct (forallb _ _).
Qed.

Lemma statusIs_true s r : statusIs s r = true ↔ PermissionsResponse.status r = s.
Proof. unfold statusIs. apply bool_decide_eq_true. Qed.

Lemma all_statusIs this m s :
  Spec.covers (permission this) m →
  forallb (statusIs s) (Spec.constituents (permission this) m) = true ↔
  ∀ p r, p ∈ permission this → m !! p = Some r → PermissionsResponse.status r = s.
Proof.
  intros Hc. rewrite (forallb_constituents_true _ _ _ Hc).
  split; intros H p r Hp Hr; apply statusIs_true; eauto.
Qed.

(** With a covering map the constituents are the responses of the listed
    permissions, one for each. *)
Lemma constituents_covers (l : list string) m :
  Spec.covers l m → Forall2 (λ p r, m !! p = Some r) l (Spec.constituents l m).
Proof.
  induction l as [| p l IH]; intros Hc; [constructor |].
  apply covers_cons in Hc as [[r Hr] Hc]. unfold Spec.constituents. simpl.
  rewrite Hr. constructor; [done | by apply IH].
Qed.

(** C1. For a requester with at least one permission (in particular one
    with several) and a map that covers its permissions, the call returns
    a bundle whose status is [granted] if every constituent status is
    GRANTED, [denied] if every constituent status is DENIED, and
    [undetermined] in every other case; for two permissions this is the
    truth table of the specification. *)
Theorem combined_status_rule this m :
  permission this ≠ [] →
  Spec.covers (permission this) m →
  ∃ b, parseAndroidPermissions this m = Return b
    ∧ ((∀ p r, p ∈ permission this → m !! p = Some r →
               PermissionsResponse.status r = GRANTED) →
       b !! STATUS_KEY = Some (Bundle.VString (status GRANTED)))
    ∧ ((∀ p r, p ∈ permission this → m !! p = Some r →
               PermissionsResponse.status r = DENIED) →
       b !! STATUS_KEY = Some (Bundle.VString (status DENIED)))
    ∧ (¬ (∀ p r, p ∈ permission this → m !! p = Some r →
                 PermissionsResponse.status r = GRANTED) →
       ¬ (∀ p r, p ∈ permission this → m !! p = Some r →
                 PermissionsResponse.status r = DENIED) →
       b !! STATUS_KEY = Some (Bundle.VString (status UNDETERMINED)))
    ∧ (∀ p1 p2 r1 r2, permission this = [p1; p2] →
         m !! p1 = Some r1 → m !! p2 = Some r2 →
         b !! STATUS_KEY
         = Some (Bundle.VString
                   (status (Spec.truth_table (PermissionsResponse.status r1)
                                             (PermissionsResponse.status r2))))).
Proof.
  intros Hne Hc. eexists. split; [by apply parse_covers |].
  rewrite bundleOf_status. unfold Spec.combine. rewrite <- !forallb_statusIs.
  pose proof (all_statusIs this m GRANTED Hc) as HG.
  pose proof (all_statusIs this m DENIED Hc) as HD.
  destruct (forallb (statusIs GRANTED) _) eqn:EG;
    [| destruct (forallb (statusIs DENIED) _) eqn:ED].
  - (* every status is GRANTED *)
    assert (HallG := proj1 HG eq_refl).
    refine (conj _ (conj _ (conj _ _))); [done | | intros Hn; by destruct Hn |].
    + intros HallD. destruct (permission this) as [| p l] eqn:E; [done |].
      destruct (Hc p) as [r Hr]; [left |].
      assert (GRANTED = DENIED); [| done].
      rewrite <- (HallG p r), <- (HallD p r); [done | left | done | left | done].
    + intros p1 p2 r1 r2 E H1 H2.
      rewrite (HallG p1 r1), (HallG p2 r2); [done | | done | | done];
        rewrite E; [right |]; left.
  - (* not all GRANTED, every status is DENIED *)
    assert (HallD := proj1 HD eq_refl).
    assert (HnG : ¬ ∀ p r, p ∈ permission this → m !! p = Some r →
                           PermissionsResponse.status r = GRANTED).
    { intros H. apply HG in H. congruence. }
    refine (conj _ (conj _ (conj _ _))); [by intros H | done | intros _ Hn; by destruct Hn |].
    intros p1 p2 r1 r2 E H1 H2.
    rewrite (HallD p1 r1), (HallD p2 r2); [done | | done | | done];
      rewrite E; [right |]; left.
  - (* neither *)
    assert (HnG : ¬ ∀ p r, p ∈ permission this → m !! p = Some r →
                           PermissionsResponse.status r = GRANTED).
    { intros H. apply HG in H. congruence. }
    assert (HnD : ¬ ∀ p r, p ∈ permission this → m !! p = Some r →
                           PermissionsResponse.status r = DENIED).
    { intros H. apply HD in H. congruence. }
    refine (conj _ (conj _ (conj _ _))); [by intros H | by intros H | done |].
    intros p1 p2 r1 r2 E H1 H2.
    destruct (PermissionsResponse.status r1) eqn:E1,
             (PermissionsResponse.status r2) eqn:E2; try done.
    + destruct HnG. intros p r Hp Hr. rewrite E in Hp.
      apply elem_of_cons in Hp as [-> | Hp]; [congruence |].
      apply list_elem_of_singleton in Hp as ->. congruence.
    + destruct HnD. intros p r Hp Hr. rewrite E in Hp.
      apply elem_of_cons in Hp as [-> | Hp]; [congruence |].
      apply list_elem_of_singleton in Hp as ->. congruence.
Qed.

(** C6. In every bundle the call returns, the [canAskAgain] flag is the
    logical AND of the [canAskAgain] flags of the constituent responses. *)
Theorem canAskAgain_is_conjunction this m b :
  parseAndroidPermissions this m = Return b →
  b !! CAN_ASK_AGAIN_KEY
  = Some (Bundle.VBoolean
            (Spec.logical_and
               (canAskAgain <$> Spec.constituents (permission this) m))).
Proof.
  intros H. apply parse_returns_inv in H as (s & c & _ & Hc & ->).
  rewrite bundleOf_canAskAgain. apply scan_returns in Hc as ->.
  by rewrite forallb_logical_and.
Qed.

(** The order in which the requester lists its permissions does not
    matter either, when the map covers them. *)
Lemma permission_order_independent (l1 l2 : list string) m :
  l1 ≡ₚ l2 → Spec.covers l1 m →
  parseAndroidPermissions (mk l1) m = parseAndroidPermissions (mk l2) m.
Proof.
  intros Hp Hc1.
  assert (Hc2 : Spec.covers l2 m).
  { intros p Hin. apply Hc1. by rewrite Hp. }
  assert (Hf : ∀ f, forallb f (Spec.constituents l1 m)
                    = forallb f (Spec.constituents l2 m)).
  { intros f. apply eq_true_iff_eq.
    rewrite (forallb_constituents_true _ _ _ Hc1),
            (forallb_constituents_true _ _ _ Hc2).
    split; intros H p r Hin; apply H; [by rewrite Hp | by rewrite <- Hp]. }
  rewrite !parse_unfold, !combinedStatus_unfold. simpl.
  rewrite !(scan_covers _ _ _ Hc1), !(scan_covers _ _ _ Hc2).
  by rewrite !Hf.
Qed.

(** On a well-formed map in entry order, [getValue] is the [getValue] of
    the finite map with the same entries. *)
Lemma LinkedHashMap_get_mapOf (entries : LinkedHashMap.t PermissionsResponse.t)
    (key : string) :
  LinkedHashMap.wellFormed entries →
  LinkedHashMap.get entries key = mapOf entries !! key.
Proof.
  intros Hwf. apply option_eq. intros v.
  rewrite (mapOf_lookup_NoDup _ _ _ Hwf). unfold LinkedHashMap.wellFormed in Hwf.
  induction entries as [| [k v'] entries IH]; simpl.
  - split; [done | intros H; by apply elem_of_nil in H].
  - simpl in Hwf. apply NoDup_cons in Hwf as [Hfresh Hwf].
    rewrite elem_of_cons. case_decide as Hk.
    + subst k. split.
      * intros [= ->]. by left.
      * intros [[= ->] | Hin]; [done |]. destruct Hfresh.
        apply list_elem_of_fmap. by exists (key, v).
    + rewrite (IH Hwf). split; [by right |].
      intros [[= ? ?] | Hin]; [congruence | done].
Qed.

Lemma all_ext {T} (f g : T → Result bool) (l : list T) :
  (∀ x, f x = g x) → all f l = all g l.
Proof.
  intros H. induction l as [| x l IH]; [done |]. simpl. by rewrite H, IH.
Qed.

Lemma parse_on_entries this (entries : LinkedHashMap.t PermissionsResponse.t) :
  LinkedHashMap.wellFormed entries →
  SimpleRequesterOnEntries.parseAndroidPermissions this entries
  = parseAndroidPermissions this (mapOf entries).
Proof.
  intros Hwf.
  assert (Hget : ∀ key, LinkedHashMap.getValue entries key
                        = getValue (mapOf entries) key).
  { intros key. unfold LinkedHashMap.getValue, getValue.
    by rewrite (LinkedHashMap_get_mapOf _ _ Hwf). }
  unfold SimpleRequesterOnEntries.parseAndroidPermissions,
         parseAndroidPermissions, combinedStatus.
  rewrite !(all_ext
              (λ it, LinkedHashMap.getValue entries it ≫= _)
              (λ it, getValue (mapOf entries) it ≫= _))
    by (intros it; by rewrite Hget).
  done.
Qed.

(** C7. The combination reads its input map, whose entries come in some
    order, by key only: two well-formed maps whose entries are
    permutations of one another give the identical result, a bundle or an
    exception.  It is commutative in the constituent responses as well:
    when the map covers the permissions, listing them in another order
    gives the identical bundle. *)
Theorem combine_order_independent this
    (entries1 entries2 : LinkedHashMap.t PermissionsResponse.t)
    (reordered : list string) :
  LinkedHashMap.wellFormed entries1 → entries1 ≡ₚ entries2 →
  SimpleRequesterOnEntries.parseAndroidPermissions this entries1
  = SimpleRequesterOnEntries.parseAndroidPermissions this entries2
  ∧ (reordered ≡ₚ getAndroidPermissions this →
     (∀ p, p ∈ getAndroidPermissions this →
           is_Some (LinkedHashMap.get entries1 p)) →
     SimpleRequesterOnEntries.parseAndroidPermissions (mk reordered) entries2
     = SimpleRequesterOnEntries.parseAndroidPermissions this entries1).
Proof.
  intros Hwf1 Hperm.
  assert (Hwf2 : LinkedHashMap.wellFormed entries2).
  { unfold LinkedHashMap.wellFormed in *. by rewrite <- Hperm. }
  rewrite !(parse_on_entries _ _ Hwf1), !(parse_on_entries _ _ Hwf2).
  rewrite <- (mapOf_Permutation _ _ Hwf1 Hperm). split; [done |].
  intros Hreordered Hcovers. destruct this as [l]. simpl in *.
  apply permission_order_independent; [done |].
  intros p Hp. rewrite <- (LinkedHashMap_get_mapOf _ _ Hwf1).
  apply Hcovers. by rewrite <- Hreordered.
Qed.

(** C8, as the code has it.  With a covering map the call is total.  When
    a listed permission is absent, let [q] be the first such: the call
    throws, for [q], exactly when the permissions listed before [q] are
    all GRANTED, or all DENIED, or all have [canAskAgain]; otherwise each
    scan stops before it reaches [q] and the call returns. *)
Theorem parse_partial this m :
  (Spec.covers (permission this) m → returns (parseAndroidPermissions this m))
  ∧ (∀ (pre : list string) (q : string) (post : list string),
       permission this = (pre ++ q :: post)%list →
       Spec.covers pre m → m !! q = None →
       parseAndroidPermissions this m =
         if forallb (statusIs GRANTED) (Spec.constituents pre m)
            || forallb (statusIs DENIED) (Spec.constituents pre m)
            || forallb canAskAgain (Spec.constituents pre m)
         then Throw (NoSuchElementException q)
         else Return (bundleOf (status UNDETERMINED) false)).
Proof.
  split.
  - intros Hc. rewrite (parse_covers _ _ Hc). by eexists.
  - intros pre q post E Hc Hq.
    rewrite parse_unfold, combinedStatus_unfold, E.
    rewrite !(scan_first_absent _ _ _ _ _ Hc Hq).
    destruct (forallb (statusIs GRANTED) _); [done |].
    destruct (forallb (statusIs DENIED) _); [done |].
    by destruct (forallb canAskAgain _).
Qed.

End simple_requester_facts.

(** *** Concrete requesters *)

Section simple_requester_examples.

Import Kotlin PermissionsStatus SimpleRequester Examples.
Import PermissionsResponse (STATUS_KEY, CAN_ASK_AGAIN_KEY).

Lemma combined_status_rule_witness :
  ∃ b, parseAndroidPermissions camera_and_audio (mapOf granted_then_denied)
       = Return b
       ∧ b !! STATUS_KEY = Some (Bundle.VString "undetermined").
Proof.
  destruct (combined_status_rule camera_and_audio (mapOf granted_then_denied))
    as (b & Hb & _ & _ & _ & Htable).
  - discriminate.
  - apply (bool_decide_unpack _). vm_compute. exact I.
  - exists b. split; [exact Hb |].
    apply (Htable CAMERA RECORD_AUDIO (PermissionsResponse.mk GRANTED true)
                  (PermissionsResponse.mk DENIED false));
      reflexivity.
Defined.

Lemma canAskAgain_is_conjunction_witness :
  bundleOf "undetermined" false !! CAN_ASK_AGAIN_KEY
  = Some (Bundle.VBoolean (true && (false && true))).
Proof.
  apply (canAskAgain_is_conjunction camera_and_audio (mapOf granted_then_denied)).
  vm_compute. reflexivity.
Defined.

Lemma combine_order_independent_witness :
  SimpleRequesterOnEntries.parseAndroidPermissions camera_and_audio
    granted_then_denied
  = SimpleRequesterOnEntries.parseAndroidPermissions camera_and_audio
      (reverse granted_then_denied)
  ∧ SimpleRequesterOnEntries.parseAndroidPermissions
      (mk [RECORD_AUDIO; CAMERA]) (reverse granted_then_denied)
    = SimpleRequesterOnEntries.parseAndroidPermissions camera_and_audio
        granted_then_denied.
Proof.
  destruct (combine_order_independent camera_and_audio granted_then_denied
              (reverse granted_then_denied) [RECORD_AUDIO; CAMERA])
    as [Hentries Hpermissions].
  - apply (bool_decide_unpack _). vm_compute. exact I.
  - apply perm_swap.
  - split; [exact Hentries |]. apply Hpermissions.
    + apply perm_swap.
    + intros p Hp. repeat (apply elem_of_cons in Hp as [-> | Hp]).
      * vm_compute. eauto.
      * vm_compute. eauto.
      * by apply elem_of_nil in Hp.
Defined.

(** C8, as stated, fails: the map omits the third permission, and the
    call returns, because the first two responses stop every scan. *)
Lemma parse_returns_despite_omitted_permission :
  let this := mk [CAMERA; RECORD_AUDIO; READ_CONTACTS] in
  let permissionsResponse := mapOf granted_then_denied in
  READ_CONTACTS ∈ getAndroidPermissions this
  ∧ permissionsResponse !! READ_CONTACTS = None
  ∧ parseAndroidPermissions this permissionsResponse
    = Return (bundleOf "undetermined" false)
  ∧ ¬ throws (parseAndroidPermissions this permissionsResponse).
Proof.
  simpl. split; [| split; [| split]].
  - apply (bool_decide_unpack _). vm_compute. exact I.
  - vm_compute. reflexivity.
  - vm_compute. reflexivity.
  - intros [e He]. vm_compute in He. discriminate He.
Qed.

Lemma parse_partial_witness :
  returns (parseAndroidPermissions camera_and_audio (mapOf granted_then_denied))
  ∧ parseAndroidPermissions (mk [CAMERA; RECORD_AUDIO])
      (mapOf [(CAMERA, PermissionsResponse.mk GRANTED true)])
    = Throw (NoSuchElementException RECORD_AUDIO).
Proof.
  split.
  - apply (proj1 (parse_partial _ _)).
    apply (bool_decide_unpack _). vm_compute. exact I.
  - assert (Hc : Spec.covers [CAMERA]
                   (mapOf [(CAMERA, PermissionsResponse.mk GRANTED true)])).
    { apply (bool_decide_unpack _). vm_compute. exact I. }
    exact (proj2 (parse_partial (mk [CAMERA; RECORD_AUDIO]) _)
             [CAMERA] RECORD_AUDIO [] eq_refl Hc eq_refl).
Defined.

End simple_requester_examples.

(** ** [EXCameraPermissionRequester] *)

Section camera_requester_facts.

Import AVFoundation EXPermissions EXCameraPermissionRequester.

Implicit Types (bundle : NSBundle) (authorization : Authorization)
               (os : RequestAccess) (self : option EXCameraPermissionRequester.t).

Lemma permissions_missing bundle authorization :
  declaresUsage bundle = false →
  permissions bundle authorization
  = ([UMFatal missingUsageDescription], dictionaryFor EXPermissionStatusDenied).
Proof. unfold permissions, declaresUsage. by intros ->. Qed.

Lemma permissions_declared bundle authorization :
  declaresUsage bundle = true →
  permissions bundle authorization
  = ([authorizationStatusForMediaType AVMediaTypeVideo],
     dictionaryFor (statusForSystemStatus (authorization AVMediaTypeVideo))).
Proof. unfold permissions, declaresUsage. by intros ->. Qed.

Lemma dictionaryFor_status status :
  dictionaryFor status !! "status" = Some (permissionStringForStatus status).
Proof. unfold dictionaryFor. by simplify_map_eq. Qed.

Lemma dictionaryFor_dom status : dom (dictionaryFor status) = {["status"; "expires"]}.
Proof. unfold dictionaryFor. rewrite !dom_insert_L, dom_empty_L. set_solver. Qed.

Lemma permissions_dictionary bundle authorization :
  ∃ status, (permissions bundle authorization).2 = dictionaryFor status.
Proof.
  destruct (declaresUsage bundle) eqn:E.
  - rewrite (permissions_declared _ _ E). by eexists.
  - rewrite (permissions_missing _ _ E). by eexists.
Qed.

(** The run of a request whose requester is still there on completion. *)
Lemma request_run os bundle authorization self :
  requestPermissionsWithResolver os bundle authorization self =
    requestAccessForMediaType AVMediaTypeVideo
    :: match self with
       | Some _ => (permissions bundle (os AVMediaTypeVideo authorization).1).1
                   ++ [resolve (Some (permissions bundle
                                        (os AVMediaTypeVideo authorization).1).2)]
       | None => [resolve None]
       end ++ notification self.
Proof.
  unfold requestPermissionsWithResolver, completionHandler, notification.
  destruct (os AVMediaTypeVideo authorization) as [authorization' granted].
  simpl. destruct self as [requester |]; simpl; [| done].
  destruct (permissions bundle authorization') as [effects value]. simpl.
  by rewrite <- app_assoc.
Qed.

Lemma declaresUsage_false bundle :
  declaresUsage bundle = false ↔
  infoDictionary bundle !! "NSCameraUsageDescription" = None
  ∨ infoDictionary bundle !! "NSMicrophoneUsageDescription" = None.
Proof.
  unfold declaresUsage, objectForInfoDictionaryKey.
  destruct (infoDictionary bundle !! "NSCameraUsageDescription"),
           (infoDictionary bundle !! "NSMicrophoneUsageDescription");
    simpl; split; try done; try (intros [H | H]; done); auto.
Qed.

Lemma declaresUsage_true bundle :
  declaresUsage bundle = true ↔
  is_Some (infoDictionary bundle !! "NSCameraUsageDescription")
  ∧ is_Some (infoDictionary bundle !! "NSMicrophoneUsageDescription").
Proof.
  unfold declaresUsage, objectForInfoDictionaryKey.
  destruct (infoDictionary bundle !! "NSCameraUsageDescription"),
           (infoDictionary bundle !! "NSMicrophoneUsageDescription");
    simpl; split; try done; intros [[? ?] [? ?]]; done.
Qed.

Lemma permissions_no_request bundle authorization :
  filter (λ e, isRequestAccess e) (permissions bundle authorization).1 = [].
Proof.
  destruct (declaresUsage bundle) eqn:E.
  - by rewrite (permissions_declared _ _ E).
  - by rewrite (permissions_missing _ _ E).
Qed.

Lemma permissions_no_resolve_no_finish bundle authorization :
  count isResolve (permissions bundle authorization).1 = 0
  ∧ count isDidFinish (permissions bundle authorization).1 = 0.
Proof.
  destruct (declaresUsage bundle) eqn:E.
  - by rewrite (permissions_declared _ _ E).
  - by rewrite (permissions_missing _ _ E).
Qed.

Lemma count_app kind (run1 run2 : list Effect) :
  count kind (run1 ++ run2) = count kind run1 + count kind run2.
Proof. unfold count. by rewrite filter_app, length_app. Qed.

Lemma notification_length self : (length (notification self) ≤ 1)%nat.
Proof. unfold notification. destruct (self ≫= delegate); simpl; lia. Qed.

Lemma notification_count self :
  count isDidFinish (notification self) = length (notification self)
  ∧ count isResolve (notification self) = 0
  ∧ filter (λ e, isRequestAccess e) (notification self) = [].
Proof. unfold notification. by destruct (self ≫= delegate). Qed.

(** C9. With both usage descriptions declared, the status the camera
    requester reports is [granted] for [AVAuthorizationStatusAuthorized],
    [denied] for both [AVAuthorizationStatusDenied] and
    [AVAuthorizationStatusRestricted], and [undetermined] for
    [AVAuthorizationStatusNotDetermined]; a restricted device and one
    where the user denied give the same effects and the same dictionary. *)
Theorem camera_status_mapping bundle authorization :
  is_Some (infoDictionary bundle !! "NSCameraUsageDescription") →
  is_Some (infoDictionary bundle !! "NSMicrophoneUsageDescription") →
  (permissions bundle authorization).2 !! "status"
  = Some (permissionStringForStatus
            match authorization AVMediaTypeVideo with
            | AVAuthorizationStatusAuthorized => EXPermissionStatusGranted
            | AVAuthorizationStatusDenied => EXPermissionStatusDenied
            | AVAuthorizationStatusRestricted => EXPermissionStatusDenied
            | AVAuthorizationStatusNotDetermined => EXPermissionStatusUndetermined
            end)
  ∧ (∀ restricted denied : Authorization,
       restricted AVMediaTypeVideo = AVAuthorizationStatusRestricted →
       denied AVMediaTypeVideo = AVAuthorizationStatusDenied →
       permissions bundle restricted = permissions bundle denied
       ∧ (permissions bundle restricted).2 !! "status" = Some "denied").
Proof.
  intros Hcamera Hmicrophone.
  assert (E : declaresUsage bundle = true) by by apply declaresUsage_true.
  split.
  - rewrite (permissions_declared _ _ E). simpl. rewrite dictionaryFor_status.
    by destruct (authorization AVMediaTypeVideo).
  - intros restricted denied Hr Hd. rewrite !(permissions_declared _ _ E).
    rewrite Hr, Hd. simpl. by rewrite dictionaryFor_status.
Qed.

(** C2, as the code has it.  When the bundle lacks one of the two usage
    descriptions, the query reports the fatal diagnostic and answers
    [denied] without any native call; the request (its requester still
    there on completion) first calls the native prompt primitive, once,
    and then reports the diagnostic and resolves with [denied]. *)
Theorem missing_usage_description_denied os bundle authorization
    (requester : EXCameraPermissionRequester.t) :
  infoDictionary bundle !! "NSCameraUsageDescription" = None
  ∨ infoDictionary bundle !! "NSMicrophoneUsageDescription" = None →
  permissions bundle authorization
  = ([UMFatal missingUsageDescription], dictionaryFor EXPermissionStatusDenied)
  ∧ requestPermissionsWithResolver os bundle authorization (Some requester)
    = [requestAccessForMediaType AVMediaTypeVideo;
       UMFatal missingUsageDescription;
       resolve (Some (dictionaryFor EXPermissionStatusDenied))]
      ++ notification (Some requester)
  ∧ dictionaryFor EXPermissionStatusDenied !! "status" = Some "denied".
Proof.
  intros Hmissing. apply declaresUsage_false in Hmissing.
  split; [by apply permissions_missing |]. split; [| done].
  rewrite request_run, (permissions_missing _ _ Hmissing). done.
Qed.

(** X21. Every request calls the native prompt primitive exactly once,
    for the video media type, whatever the current authorization, and
    never for another media type.  Whether the operating system then shows
    a dialog is not the requester's doing. *)
Theorem request_calls_prompt_primitive_once os bundle authorization self :
  filter (λ e, isRequestAccess e)
         (requestPermissionsWithResolver os bundle authorization self)
  = [requestAccessForMediaType AVMediaTypeVideo].
Proof.
  rewrite request_run. rewrite filter_cons_True by done. f_equal.
  rewrite filter_app. destruct (notification_count self) as (_ & _ & ->).
  rewrite app_nil_r. destruct self; [| done].
  rewrite filter_app, permissions_no_request. done.
Qed.

(** C5, as the code has it.  Every request resolves exactly once, and
    what follows the resolution is the notification of the delegate: one
    call when the requester is still there and has a delegate, none
    otherwise.  The delegate is never notified before the resolution and
    never twice. *)
Theorem delegate_notified_after_resolve os bundle authorization self :
  (∃ before value,
      requestPermissionsWithResolver os bundle authorization self
      = before ++ resolve value :: notification self
      ∧ count isResolve before = 0 ∧ count isDidFinish before = 0)
  ∧ count isResolve (requestPermissionsWithResolver os bundle authorization self)
    = 1
  ∧ count isDidFinish (requestPermissionsWithResolver os bundle authorization self)
    = match self ≫= delegate with Some _ => 1 | None => 0 end.
Proof.
  rewrite request_run.
  destruct (permissions_no_resolve_no_finish bundle
              (os AVMediaTypeVideo authorization).1) as [Hr Hf].
  destruct (notification_count self) as (Hn1 & Hn2 & _).
  assert (Hlen : length (notification self)
                 = match self ≫= delegate with Some _ => 1 | None => 0 end).
  { unfold notification. by destruct (self ≫= delegate). }
  destruct self as [requester |].
  - split; [| split].
    + eexists (requestAccessForMediaType AVMediaTypeVideo :: _), _.
      split; [by rewrite <- app_assoc |].
      change (?x :: ?l) with ([x] ++ l). rewrite !count_app, Hr, Hf. done.
    + change (?x :: ?l) with ([x] ++ l).
      rewrite !count_app, Hr, Hn2. done.
    + change (?x :: ?l) with ([x] ++ l).
      rewrite !count_app, Hf, Hn1, Hlen. done.
  - split; [| done].
    by exists [requestAccessForMediaType AVMediaTypeVideo], None.
Qed.

End camera_requester_facts.

(** *** Concrete runs of the camera requester *)

Section camera_requester_examples.

Import AVFoundation EXPermissions EXCameraPermissionRequester Examples.

Lemma camera_status_mapping_witness :
  (permissions complete_bundle all_authorized).2 !! "status" = Some "granted".
Proof.
  apply (camera_status_mapping complete_bundle all_authorized).
  - apply (bool_decide_unpack _). vm_compute. exact I.
  - apply (bool_decide_unpack _). vm_compute. exact I.
Defined.

Lemma missing_usage_description_denied_witness :
  permissions bare_bundle none_determined
  = ([UMFatal missingUsageDescription], dictionaryFor EXPermissionStatusDenied).
Proof.
  apply (missing_usage_description_denied user_allows bare_bundle
           none_determined with_delegate).
  left. vm_compute. reflexivity.
Defined.

(** C2, as stated, fails on the request path: the bundle declares no
    usage description, and the run starts with the call of the native
    prompt primitive. *)
Lemma request_prompts_despite_missing_description :
  infoDictionary bare_bundle !! "NSCameraUsageDescription" = None
  ∧ requestPermissionsWithResolver user_allows bare_bundle none_determined
      (Some with_delegate)
    = [requestAccessForMediaType AVMediaTypeVideo;
       UMFatal missingUsageDescription;
       resolve (Some (dictionaryFor EXPermissionStatusDenied));
       permissionRequesterDidFinish (DelegateRef 1)]
  ∧ count isRequestAccess
      (requestPermissionsWithResolver user_allows bare_bundle none_determined
         (Some with_delegate)) = 1.
Proof. split; [| split]; vm_compute; reflexivity. Qed.

(** The camera is already authorized, and the request still calls the
    native prompt primitive for it; the requester does not look at the
    status first. *)
Lemma request_prompts_although_granted :
  (permissions complete_bundle all_authorized).2 !! "status" = Some "granted"
  ∧ requestPermissionsWithResolver user_allows complete_bundle all_authorized
      (Some with_delegate)
    = [requestAccessForMediaType AVMediaTypeVideo;
       authorizationStatusForMediaType AVMediaTypeVideo;
       resolve (Some (dictionaryFor EXPermissionStatusGranted));
       permissionRequesterDidFinish (DelegateRef 1)].
Proof. split; vm_compute; reflexivity. Qed.

(** C5, as stated, fails: the requester has no delegate, the request
    resolves, and the completion hook is called zero times. *)
Lemma request_without_delegate_notifies_nobody :
  requestPermissionsWithResolver user_allows complete_bundle none_determined
    (Some without_delegate)
  = [requestAccessForMediaType AVMediaTypeVideo;
     authorizationStatusForMediaType AVMediaTypeVideo;
     resolve (Some (dictionaryFor EXPermissionStatusGranted))]
  ∧ count isDidFinish
      (requestPermissionsWithResolver user_allows complete_bundle
         none_determined (Some without_delegate)) = 0.
Proof. split; vm_compute; reflexivity. Qed.

End camera_requester_examples.

(** ** The fields of the responses *)

Section response_fields.

Import Kotlin SimpleRequester EXPermissions EXCameraPermissionRequester Examples.
Import PermissionsResponse (STATUS_KEY, EXPIRES_KEY, CAN_ASK_AGAIN_KEY).

(** C3, as the code has it.  A bundle the Android requester returns has
    exactly the keys [status], [expires] and [canAskAgain], and the
    dictionary of the iOS camera requester exactly [status] and
    [expires]; the status is one of the three status strings, and
    neither response has a [granted] field. *)
Theorem responses_carry_status_without_granted
    (this : SimpleRequester.t) (m : gmap string PermissionsResponse.t)
    (b : Bundle.t) (bundle : NSBundle) (authorization : AVFoundation.Authorization) :
  parseAndroidPermissions this m = Return b →
  (dom b = {[STATUS_KEY; EXPIRES_KEY; CAN_ASK_AGAIN_KEY]}
   ∧ b !! "granted" = None
   ∧ ∃ s, b !! STATUS_KEY = Some (Bundle.VString (PermissionsStatus.status s)))
  ∧ (dom (permissions bundle authorization).2 = {["status"; "expires"]}
     ∧ (permissions bundle authorization).2 !! "granted" = None
     ∧ ∃ s, (permissions bundle authorization).2 !! "status"
            = Some (permissionStringForStatus s)).
Proof.
  intros H. apply parse_returns_inv in H as (s & c & Hs & _ & ->). split.
  - split; [apply bundleOf_dom |]. split.
    + unfold bundleOf, Bundle.putBoolean, Bundle.putString.
      by rewrite !lookup_insert_ne.
    + rewrite bundleOf_status.
      apply combinedStatus_returns_one_of_three in Hs as [-> | [-> | ->]];
        by eexists.
  - destruct (permissions_dictionary bundle authorization) as [status ->].
    split; [apply dictionaryFor_dom |]. split.
    + unfold dictionaryFor. by rewrite !lookup_insert_ne.
    + exists status. apply dictionaryFor_status.
Qed.

Lemma responses_carry_status_without_granted_witness :
  dom (bundleOf "undetermined" false)
  = {[STATUS_KEY; EXPIRES_KEY; CAN_ASK_AGAIN_KEY]}.
Proof.
  apply (responses_carry_status_without_granted camera_and_audio
           (mapOf granted_then_denied) _ bare_bundle none_determined).
  vm_compute. reflexivity.
Defined.

(** C3, as stated, fails: both permissions are granted, the camera is
    authorized, and neither response holds anything under [granted]. *)
Lemma granted_response_without_granted_field :
  parseAndroidPermissions camera_and_audio (mapOf both_granted)
  = Return (bundleOf "granted" true)
  ∧ bundleOf "granted" true !! "granted" = None
  ∧ (permissions complete_bundle all_authorized).2
    = dictionaryFor EXPermissionStatusGranted
  ∧ dictionaryFor EXPermissionStatusGranted !! "granted" = None.
Proof. repeat split; vm_compute; reflexivity. Qed.

End response_fields.

(** ** [BarCodeScanner.onObjectDetected] *)

Section bar_code_scanner_facts.

Import BarCodeScanner.

Context (JSON_stringify : BarCodeEvent → string).
Context {Callback : Type}.

Implicit Types (this : BarCodeScanner.t) (log : list Delivery)
               (e : BarCodeEvent) (a : Arrival Callback).

Lemma lastDelivered_snoc key log (d : Delivery) :
  lastDelivered key (log ++ [d])
  = if decide (type d.1 = key) then Some d else lastDelivered key log.
Proof.
  unfold lastDelivered. rewrite filter_app. case_decide as Hk.
  - rewrite filter_cons_True by done. simpl. apply last_snoc.
  - rewrite filter_cons_False by done. simpl. by rewrite app_nil_r.
Qed.

Lemma records_initial : records JSON_stringify initial [].
Proof.
  split; [| done]. intros key _. unfold lastDelivered. simpl.
  by rewrite !lookup_empty.
Qed.

(** The two assignments, under a type other than [__proto__] and under
    [__proto__] when it is no own property. *)
Lemma assign_ordinary key (text : string) (date : Z) this :
  key ≠ "__proto__" →
  assignEvent key text (assignTime key date this)
  = mk (<[key := text]> (lastEvents this)) (<[key := date]> (lastEventsTimes this))
       (lastEventsTimesPrototype this).
Proof.
  intros Hk. unfold assignEvent, assignTime.
  rewrite !decide_False by (intros [? _]; done). done.
Qed.

Lemma assign_own key (text : string) (date : Z) this :
  is_Some (lastEvents this !! key) → is_Some (lastEventsTimes this !! key) →
  assignEvent key text (assignTime key date this)
  = mk (<[key := text]> (lastEvents this)) (<[key := date]> (lastEventsTimes this))
       (lastEventsTimesPrototype this).
Proof.
  intros [s Hs] [d Hd]. unfold assignEvent, assignTime.
  rewrite (decide_False (P := _ ∧ lastEventsTimes this !! key = None))
    by (intros [_ H]; congruence).
  simpl. rewrite decide_False by (intros [_ H]; congruence). done.
Qed.

Lemma assign_proto (text : string) (date : Z) this :
  lastEvents this !! "__proto__" = None →
  lastEventsTimes this !! "__proto__" = None →
  assignEvent "__proto__" text (assignTime "__proto__" date this)
  = mk (lastEvents this) (lastEventsTimes this) (Some date).
Proof.
  intros He Ht. unfold assignEvent, assignTime.
  rewrite (decide_True (P := _ ∧ lastEventsTimes this !! _ = None)) by done.
  simpl. by rewrite decide_True.
Qed.

(** What one call does, case by case. *)
Lemma onObjectDetected_duplicate (cb : option Callback) e now date this :
  isDuplicate JSON_stringify this e now = true →
  onObjectDetected JSON_stringify cb e now date this = (this, []).
Proof. unfold onObjectDetected. by intros ->. Qed.

Lemma onObjectDetected_fresh (cb : option Callback) e now date this :
  isDuplicate JSON_stringify this e now = false →
  onObjectDetected JSON_stringify cb e now date this =
    match cb with
    | Some f => (assignEvent (type e) (JSON_stringify e)
                   (assignTime (type e) date this),
                 [(f, e)])
    | None => (this, [])
    end.
Proof. unfold onObjectDetected. by intros ->. Qed.

(** The records are kept by every arrival. *)
Lemma records_receive this log a :
  records JSON_stringify this log →
  records JSON_stringify (receive JSON_stringify (this, log) a).1
                         (receive JSON_stringify (this, log) a).2.
Proof.
  intros Hrec. unfold receive. simpl.
  destruct (isDuplicate JSON_stringify this (nativeEvent a) (now a)) eqn:Hdup.
  - rewrite (onObjectDetected_duplicate _ _ _ _ _ Hdup). simpl.
    by rewrite app_nil_r.
  - rewrite (onObjectDetected_fresh _ _ _ _ _ Hdup).
    destruct (callback a) as [f |]; simpl; [| by rewrite app_nil_r].
    destruct Hrec as (Hkeys & Hpe & Hpt).
    destruct (decide (type (nativeEvent a) = "__proto__")) as [Hproto | Hproto].
    + rewrite Hproto, (assign_proto _ _ _ Hpe Hpt). simpl.
      split; [| done]. intros key Hkey. rewrite lastDelivered_snoc. simpl.
      rewrite decide_False by congruence. by apply Hkeys.
    + rewrite (assign_ordinary _ _ _ _ Hproto). simpl. split.
      * intros key Hkey. rewrite lastDelivered_snoc. simpl.
        destruct (Hkeys key Hkey) as [Hevents Htimes]. case_decide as Hk.
        -- subst key. by rewrite !lookup_insert_eq.
        -- by rewrite !lookup_insert_ne.
      * simpl. by rewrite !lookup_insert_ne.
Qed.

Lemma records_receiveAll (arrivals : list (Arrival Callback)) :
  records JSON_stringify (receiveAll JSON_stringify arrivals).1
                         (receiveAll JSON_stringify arrivals).2.
Proof.
  unfold receiveAll. induction arrivals as [| a arrivals IH] using rev_ind.
  - apply records_initial.
  - rewrite foldl_app. simpl.
    destruct (foldl (receive JSON_stringify) (initial, []) arrivals)
      as [this log].
    by apply records_receive.
Qed.

(** On a state that records the deliveries, and with a serialization
    that is never the empty string, the condition of the handler on an
    event of a type other than [__proto__] is the duplicate of the
    specification; on an event of type [__proto__] it is false. *)
Lemma isDuplicate_spec this log e now :
  (∀ e', JSON_stringify e' ≠ "") → records JSON_stringify this log →
  type e ≠ "__proto__" →
  isDuplicate JSON_stringify this e now = true
  ↔ Spec.duplicate JSON_stringify log e now.
Proof.
  intros Hne (Hkeys & _ & _) Hproto. unfold isDuplicate, readTime, Spec.duplicate.
  destruct (Hkeys (type e) Hproto) as [-> ->].
  destruct (lastDelivered (type e) log) as [[lastEvent lastTime] |]; simpl.
  - assert (Ht : truthy (JSON_stringify lastEvent) = true).
    { unfold truthy. apply negb_true_iff, bool_decide_eq_false, Hne. }
    rewrite Ht. simpl. rewrite andb_true_iff, !bool_decide_eq_true.
    unfold EVENT_THROTTLE_MS. split.
    + intros [Hj Hlt]. by exists lastEvent, lastTime.
    + intros (e' & t' & [= <- <-] & Hj & Hlt). done.
  - split; [done | intros (e' & t' & H & _); done].
Qed.



End bar_code_scanner_facts.

(** *** Concrete scans *)

Section bar_code_scanner_examples.

Import BarCodeScanner Examples.

Lemma stringify_nonempty e : stringify e ≠ "".
Proof. unfold stringify. simpl. discriminate. Qed.



End bar_code_scanner_examples.

(** * Further properties of the code *)

(** ** [SimpleRequester.parseAndroidPermissions], beyond the claims *)

Section simple_requester_more.

Import Kotlin PermissionsStatus SimpleRequester.
Import PermissionsResponse (STATUS_KEY, EXPIRES_KEY, CAN_ASK_AGAIN_KEY,
                            PERMISSION_EXPIRES_NEVER, canAskAgain).

Implicit Types (this : SimpleRequester.t)
               (m : gmap string PermissionsResponse.t).

(** A scan that answers [true] has looked every key up and found it. *)
Lemma scan_true {V} (mv : gmap string V) (f : V → bool) (l : list string) :
  scan mv f l = Return true →
  ∀ p, p ∈ l → ∃ r, mv !! p = Some r ∧ f r = true.
Proof.
  induction l as [| q l IH]; intros H p Hp; [by apply elem_of_nil in Hp |].
  destruct (mv !! q) as [r |] eqn:Hq.
  - rewrite (scan_cons_present _ _ _ _ _ Hq) in H.
    destruct (f r) eqn:Hf; [| done].
    apply elem_of_cons in Hp as [-> | Hp]; [by exists r | by apply IH].
  - by rewrite (scan_cons_absent _ _ _ _ Hq) in H.
Qed.

(** A scan throws only for the first key that is absent. *)
Lemma scan_throws {V} (mv : gmap string V) (f : V → bool) (l : list string) e :
  scan mv f l = Throw e →
  ∃ pre q post, l = pre ++ q :: post ∧ Spec.covers pre mv ∧ mv !! q = None
                ∧ e = NoSuchElementException q.
Proof.
  induction l as [| p l IH]; intros H; [done |].
  destruct (mv !! p) as [r |] eqn:Hp.
  - rewrite (scan_cons_present _ _ _ _ _ Hp) in H.
    destruct (f r); [| done].
    destruct (IH H) as (pre & q & post & -> & Hc & Hq & ->).
    exists (p :: pre), q, post. split; [done |]. split; [| done].
    apply covers_cons. split; [by exists r | done].
  - rewrite (scan_cons_absent _ _ _ _ Hp) in H. inversion H.
    exists [], p, l. split; [done |]. split; [| done].
    intros x Hx. by apply elem_of_nil in Hx.
Qed.

(** The scan reads the map at the listed keys only. *)
Lemma scan_agree {V} (m1 m2 : gmap string V) (f : V → bool) (l : list string) :
  (∀ p, p ∈ l → m1 !! p = m2 !! p) → scan m1 f l = scan m2 f l.
Proof.
  induction l as [| p l IH]; intros H; [done |].
  assert (Hp : m1 !! p = m2 !! p) by (apply H; left).
  assert (Hl : scan m1 f l = scan m2 f l).
  { apply IH. intros q Hq. apply H. by right. }
  destruct (m2 !! p) as [r |] eqn:E.
  - rewrite (scan_cons_present m1 _ _ _ _ Hp), (scan_cons_present m2 _ _ _ _ E).
    by rewrite Hl.
  - by rewrite (scan_cons_absent m1 _ _ _ Hp), (scan_cons_absent m2 _ _ _ E).
Qed.

Lemma status_inj (s1 s2 : PermissionsStatus.t) : status s1 = status s2 → s1 = s2.
Proof. by destruct s1, s2. Qed.

(** X1. A returned bundle says [granted] only if the map holds a GRANTED
    response for every listed permission, and [denied] only if it holds a
    DENIED response for every listed permission; no map that lacks a
    listed permission yields either. *)
Theorem decided_status_needs_every_permission this m b s :
  parseAndroidPermissions this m = Return b →
  b !! STATUS_KEY = Some (Bundle.VString (status s)) →
  s ≠ UNDETERMINED →
  ∀ p, p ∈ getAndroidPermissions this →
       ∃ r, m !! p = Some r ∧ PermissionsResponse.status r = s.
Proof.
  intros H Hs Hdecided p Hp.
  apply parse_returns_inv in H as (str & c & Hstr & _ & ->).
  rewrite bundleOf_status in Hs. injection Hs as ->.
  rewrite combinedStatus_unfold in Hstr.
  destruct (scan m (statusIs GRANTED) (permission this)) as [[] |] eqn:HG;
    simpl in Hstr; [| | done].
  - injection Hstr as Hinj. apply (status_inj GRANTED s) in Hinj as <-.
    destruct (scan_true _ _ _ HG p Hp) as (r & Hr & Hf).
    exists r. split; [done | by apply statusIs_true].
  - destruct (scan m (statusIs DENIED) (permission this)) as [[] |] eqn:HD;
      simpl in Hstr; [| | done].
    + injection Hstr as Hinj. apply (status_inj DENIED s) in Hinj as <-.
      destruct (scan_true _ _ _ HD p Hp) as (r & Hr & Hf).
      exists r. split; [done | by apply statusIs_true].
    + injection Hstr as Hinj. apply (status_inj UNDETERMINED s) in Hinj.
      by destruct Hdecided.
Qed.

(** X2. For a requester with one permission the combination is the
    identity: the bundle carries the status and the [canAskAgain] flag of
    the one response. *)
Theorem single_permission_identity (p : string) (r : PermissionsResponse.t) m :
  m !! p = Some r →
  parseAndroidPermissions (mk [p]) m
  = Return (bundleOf (status (PermissionsResponse.status r)) (canAskAgain r)).
Proof.
  intros Hr. rewrite parse_unfold, combinedStatus_unfold. simpl.
  rewrite !(scan_cons_present _ _ _ _ _ Hr), !scan_nil.
  unfold statusIs. destruct r as [[] []]; reflexivity.
Qed.

(** X3. On the empty map a requester throws for the first permission it
    lists; only the requester that lists none returns, and it answers
    [granted] with [canAskAgain] true. *)
Theorem parse_on_empty_map this :
  parseAndroidPermissions this ∅
  = match getAndroidPermissions this with
    | [] => Return (bundleOf (status GRANTED) true)
    | p :: _ => Throw (NoSuchElementException p)
    end.
Proof.
  rewrite parse_unfold, combinedStatus_unfold. unfold getAndroidPermissions.
  destruct (permission this) as [| p l]; [done |].
  by rewrite (scan_cons_absent ∅ _ p l (lookup_empty p)).
Qed.

(** X4. The result depends on the map only through the listed
    permissions: entries under other keys are never read. *)
Theorem parse_reads_listed_permissions_only this m1 m2 :
  (∀ p, p ∈ getAndroidPermissions this → m1 !! p = m2 !! p) →
  parseAndroidPermissions this m1 = parseAndroidPermissions this m2.
Proof.
  intros H. rewrite !parse_unfold, !combinedStatus_unfold.
  by rewrite !(scan_agree m1 m2 _ _ H).
Qed.

(** X5. With a covering map the result depends on the permissions only as
    a set: neither their order nor a repeated permission changes it. *)
Theorem parse_same_permission_set (l1 l2 : list string) m :
  (∀ p, p ∈ l1 ↔ p ∈ l2) → Spec.covers l1 m →
  parseAndroidPermissions (mk l1) m = parseAndroidPermissions (mk l2) m.
Proof.
  intros Hset Hc1.
  assert (Hc2 : Spec.covers l2 m).
  { intros p Hin. apply Hc1. by apply Hset. }
  assert (Hf : ∀ f, forallb f (Spec.constituents l1 m)
                    = forallb f (Spec.constituents l2 m)).
  { intros f. apply eq_true_iff_eq.
    rewrite (forallb_constituents_true _ _ _ Hc1),
            (forallb_constituents_true _ _ _ Hc2).
    split; intros H p r Hin; apply H; by apply Hset. }
  rewrite !parse_unfold, !combinedStatus_unfold. simpl.
  rewrite !(scan_covers _ _ _ Hc1), !(scan_covers _ _ _ Hc2).
  by rewrite !Hf.
Qed.

(** X6. When the call throws, the exception names a listed permission
    that the map lacks, and every permission listed before it is in the
    map. *)
Theorem thrown_key_is_first_absent this m (e : Throwable) :
  parseAndroidPermissions this m = Throw e →
  ∃ pre q post,
    getAndroidPermissions this = pre ++ q :: post
    ∧ Spec.covers pre m ∧ m !! q = None ∧ e = NoSuchElementException q.
Proof.
  rewrite parse_unfold, combinedStatus_unfold. intros H.
  destruct (scan m (statusIs GRANTED) (permission this)) as [[] |] eqn:HG;
    simpl in H; [| | injection H as <-; by apply (scan_throws _ _ _ _ HG)].
  - destruct (scan m canAskAgain (permission this)) as [c |] eqn:HC;
      simpl in H; [done | injection H as <-; by apply (scan_throws _ _ _ _ HC)].
  - destruct (scan m (statusIs DENIED) (permission this)) as [[] |] eqn:HD;
      simpl in H; [| | injection H as <-; by apply (scan_throws _ _ _ _ HD)].
    + destruct (scan m canAskAgain (permission this)) as [c |] eqn:HC;
        simpl in H; [done | injection H as <-; by apply (scan_throws _ _ _ _ HC)].
    + destruct (scan m canAskAgain (permission this)) as [c |] eqn:HC;
        simpl in H; [done | injection H as <-; by apply (scan_throws _ _ _ _ HC)].
Qed.

End simple_requester_more.

Section simple_requester_more_examples.

Import Kotlin PermissionsStatus SimpleRequester Examples.
Import PermissionsResponse (STATUS_KEY).

Lemma decided_status_needs_every_permission_witness :
  ∃ r, mapOf both_granted !! CAMERA = Some r
       ∧ PermissionsResponse.status r = GRANTED.
Proof.
  apply (decided_status_needs_every_permission camera_and_audio
           (mapOf both_granted) (bundleOf "granted" true) GRANTED).
  - vm_compute. reflexivity.
  - vm_compute. reflexivity.
  - discriminate.
  - apply (bool_decide_unpack _). vm_compute. exact I.
Defined.

Lemma single_permission_identity_witness :
  parseAndroidPermissions (mk [CAMERA]) (mapOf granted_then_denied)
  = Return (bundleOf "granted" true).
Proof.
  apply (single_permission_identity CAMERA (PermissionsResponse.mk GRANTED true)).
  vm_compute. reflexivity.
Defined.

Lemma parse_reads_listed_permissions_only_witness :
  parseAndroidPermissions camera_and_audio (mapOf granted_then_denied)
  = parseAndroidPermissions camera_and_audio
      (<[READ_CONTACTS := PermissionsResponse.mk DENIED false]>
         (mapOf granted_then_denied)).
Proof.
  apply parse_reads_listed_permissions_only.
  intros p Hp. repeat (apply elem_of_cons in Hp as [-> | Hp]).
  - vm_compute. reflexivity.
  - vm_compute. reflexivity.
  - by apply elem_of_nil in Hp.
Defined.

Lemma parse_same_permission_set_witness :
  parseAndroidPermissions (mk [CAMERA; RECORD_AUDIO]) (mapOf granted_then_denied)
  = parseAndroidPermissions (mk [RECORD_AUDIO; CAMERA; RECORD_AUDIO])
      (mapOf granted_then_denied).
Proof.
  apply parse_same_permission_set.
  - intros p. rewrite !elem_of_cons, !elem_of_nil. tauto.
  - apply (bool_decide_unpack _). vm_compute. exact I.
Defined.

Lemma thrown_key_is_first_absent_witness :
  ∃ pre q post,
    [CAMERA; RECORD_AUDIO] = pre ++ q :: post
    ∧ Spec.covers pre (mapOf [(CAMERA, PermissionsResponse.mk GRANTED true)])
    ∧ mapOf [(CAMERA, PermissionsResponse.mk GRANTED true)] !! q = None
    ∧ NoSuchElementException RECORD_AUDIO = NoSuchElementException q.
Proof.
  apply (thrown_key_is_first_absent camera_and_audio
           (mapOf [(CAMERA, PermissionsResponse.mk GRANTED true)])
           (NoSuchElementException RECORD_AUDIO)).
  vm_compute. reflexivity.
Defined.

End simple_requester_more_examples.

(** ** [EXCameraPermissionRequester], beyond the claims *)

Section camera_requester_more.

Import AVFoundation EXPermissions EXCameraPermissionRequester.

Implicit Types (bundle : NSBundle) (authorization : Authorization)
               (os : RequestAccess) (self : option EXCameraPermissionRequester.t).

Lemma permissions_video bundle (a1 a2 : Authorization) :
  a1 AVMediaTypeVideo = a2 AVMediaTypeVideo →
  permissions bundle a1 = permissions bundle a2.
Proof. intros H. unfold permissions. by rewrite H. Qed.

Lemma permissionString_granted status :
  permissionStringForStatus status = "granted" ↔ status = EXPermissionStatusGranted.
Proof. by destruct status. Qed.

(** X7. The status query never calls the prompt primitive, and of the
    authorization state it reads the video entry alone: two devices that
    agree on it get the same effects and the same dictionary, whatever the
    microphone authorization is. *)
Theorem query_reads_video_authorization_only bundle (a1 a2 : Authorization) :
  a1 AVMediaTypeVideo = a2 AVMediaTypeVideo →
  permissions bundle a1 = permissions bundle a2
  ∧ count isRequestAccess (permissions bundle a1).1 = 0.
Proof.
  intros H. split; [by apply permissions_video |].
  unfold count. by rewrite permissions_no_request.
Qed.

(** X8. The status query answers [granted] exactly when the bundle declares
    both usage descriptions and the camera is authorized. *)
Theorem query_granted_iff bundle authorization :
  (permissions bundle authorization).2 !! "status" = Some "granted"
  ↔ is_Some (infoDictionary bundle !! "NSCameraUsageDescription")
    ∧ is_Some (infoDictionary bundle !! "NSMicrophoneUsageDescription")
    ∧ authorization AVMediaTypeVideo = AVAuthorizationStatusAuthorized.
Proof.
  destruct (declaresUsage bundle) eqn:E.
  - rewrite (permissions_declared _ _ E). simpl. rewrite dictionaryFor_status.
    apply declaresUsage_true in E as [Hc Hm]. split.
    + intros [= H]. apply permissionString_granted in H.
      split; [done |]. split; [done |].
      by destruct (authorization AVMediaTypeVideo).
    + intros (_ & _ & ->). done.
  - rewrite (permissions_missing _ _ E). simpl. rewrite dictionaryFor_status.
    split; [done |]. intros (Hc & Hm & _).
    assert (declaresUsage bundle = true) by by apply declaresUsage_true.
    congruence.
Qed.

(** X9. A request depends on the operating system only through the video
    authorization the prompt leaves behind: the [granted] flag passed to
    the completion handler and the authorization before the prompt do not
    show in what the requester does. *)
Theorem request_depends_on_resulting_authorization
    (os1 os2 : RequestAccess) bundle (a1 a2 : Authorization) self :
  (os1 AVMediaTypeVideo a1).1 AVMediaTypeVideo
  = (os2 AVMediaTypeVideo a2).1 AVMediaTypeVideo →
  requestPermissionsWithResolver os1 bundle a1 self
  = requestPermissionsWithResolver os2 bundle a2 self.
Proof.
  intros H. rewrite !request_run.
  by rewrite (permissions_video bundle _ _ H).
Qed.

(** X10. A request resolves exactly once, and with the dictionary a status
    query gives once the prompt is over; when the requester is gone by
    then, it resolves with [nil]. *)
Theorem request_resolves_with_query_result os bundle authorization self :
  filter (λ e, isResolve e)
         (requestPermissionsWithResolver os bundle authorization self)
  = [resolve (match self with
              | Some _ => Some (permissions bundle
                                  (os AVMediaTypeVideo authorization).1).2
              | None => None
              end)].
Proof.
  rewrite request_run. rewrite filter_cons_False by (simpl; auto).
  rewrite filter_app.
  assert (Hn : filter (λ e, isResolve e) (notification self) = []).
  { unfold notification. by destruct (self ≫= delegate). }
  rewrite Hn, app_nil_r. destruct self as [requester |]; [| done].
  rewrite filter_app.
  assert (Hp : filter (λ e, isResolve e)
                 (permissions bundle (os AVMediaTypeVideo authorization).1).1 = []).
  { destruct (declaresUsage bundle) eqn:E.
    - by rewrite (permissions_declared _ _ E).
    - by rewrite (permissions_missing _ _ E). }
  rewrite Hp. done.
Qed.

End camera_requester_more.

Section camera_requester_more_examples.

Import AVFoundation EXPermissions EXCameraPermissionRequester Examples Cases.

Lemma query_reads_video_authorization_only_witness :
  permissions complete_bundle camera_only = permissions complete_bundle all_authorized.
Proof.
  apply (query_reads_video_authorization_only complete_bundle
           camera_only all_authorized).
  reflexivity.
Defined.

Lemma request_depends_on_resulting_authorization_witness :
  requestPermissionsWithResolver user_refuses complete_bundle none_determined
    (Some with_delegate)
  = requestPermissionsWithResolver user_refuses_flag_set complete_bundle
      none_determined (Some with_delegate).
Proof.
  apply request_depends_on_resulting_authorization. reflexivity.
Defined.

End camera_requester_more_examples.

(** ** [BarCodeScanner.onObjectDetected], beyond the claim *)

Section bar_code_scanner_more.

Import BarCodeScanner.

Context (JSON_stringify : BarCodeEvent → string).
Context {Callback : Type}.

Implicit Types (this : BarCodeScanner.t) (log : list Delivery)
               (e : BarCodeEvent) (a : Arrival Callback).

Lemma filter_other_types key (l : list Delivery) :
  Forall (λ d, type d.1 ≠ key) l → filter (λ d, type d.1 = key) l = [].
Proof.
  induction 1 as [| d l Hd _ IH]; [done |].
  by rewrite filter_cons_False.
Qed.

Lemma lastDelivered_then_others key (l1 : list Delivery) (d : Delivery) l2 :
  type d.1 = key → Forall (λ x, type x.1 ≠ key) l2 →
  lastDelivered key (l1 ++ d :: l2) = Some d.
Proof.
  intros Hd Hl2. unfold lastDelivered.
  rewrite filter_app, filter_cons_True by done.
  rewrite (filter_other_types _ _ Hl2). apply last_snoc.
Qed.

(** The condition of the handler on a state that holds the serialization
    of the event under its type. *)
Lemma isDuplicate_recorded this e now lastTime :
  JSON_stringify e ≠ "" →
  lastEvents this !! type e = Some (JSON_stringify e) →
  lastEventsTimes this !! type e = Some lastTime →
  isDuplicate JSON_stringify this e now
  = bool_decide (now - lastTime < EVENT_THROTTLE_MS)%Z.
Proof.
  intros Hne He Ht. unfold isDuplicate, readTime. rewrite He, Ht.
  assert (Htruthy : truthy (JSON_stringify e) = true).
  { unfold truthy. by apply negb_true_iff, bool_decide_eq_false. }
  rewrite Htruthy. simpl. by rewrite bool_decide_eq_true_2.
Qed.

(** The two assignments under one key leave what the condition reads
    under another key as it was. *)
Lemma assign_other_key key key' (text : string) (date : Z) this :
  key' ≠ key →
  lastEvents (assignEvent key text (assignTime key date this)) !! key'
  = lastEvents this !! key'
  ∧ readTime (assignEvent key text (assignTime key date this)) key'
    = readTime this key'.
Proof.
  intros Hk. unfold assignEvent, assignTime, readTime.
  repeat case_decide; simpl in *; rewrite ?lookup_insert_ne by done;
    try done; destruct_and?; subst;
    repeat case_decide; try done; by destruct (lastEventsTimes this !! _).
Qed.

Lemma isDuplicate_other_type (cb : option Callback) e now date this e' now' :
  type e' ≠ type e →
  isDuplicate JSON_stringify
    (onObjectDetected JSON_stringify cb e now date this).1 e' now'
  = isDuplicate JSON_stringify this e' now'.
Proof.
  intros Hk. unfold onObjectDetected.
  destruct (isDuplicate JSON_stringify this e now); [done |].
  destruct cb as [f |]; [| done]. simpl. unfold isDuplicate.
  destruct (assign_other_key (type e) (type e') (JSON_stringify e) date this Hk)
    as [-> ->].
  done.
Qed.

(** X11. The throttle is kept per type: whatever the handler does with an
    event, it decides on every later event of another type as it would
    have decided without it, and makes the same calls. *)
Theorem other_types_untouched (cb cb' : option Callback)
    e now date this e' now' date' :
  type e' ≠ type e →
  (onObjectDetected JSON_stringify cb' e' now' date'
     (onObjectDetected JSON_stringify cb e now date this).1).2
  = (onObjectDetected JSON_stringify cb' e' now' date' this).2.
Proof.
  intros Hk.
  pose proof (isDuplicate_other_type cb e now date this e' now' Hk) as Hsame.
  unfold onObjectDetected at 1 3. rewrite Hsame.
  destruct (isDuplicate JSON_stringify this e' now'); [done |].
  by destruct cb'.
Qed.

(** X12. Suppressed events do not prolong the throttle.  After the
    delivery of an event, any number of repetitions of it that arrive
    within 500 ms of the recorded time are dropped and leave the state as
    it is, so that the first repetition 500 ms or more after the recorded
    time is delivered. *)
Theorem suppressed_burst_keeps_window
    (burst : list (Arrival Callback)) this log e (lastTime : Z)
    (f : Callback) (now' date' : Z) :
  JSON_stringify e ≠ "" →
  lastEvents this !! type e = Some (JSON_stringify e) →
  lastEventsTimes this !! type e = Some lastTime →
  Forall (λ a, nativeEvent a = e ∧ (now a - lastTime < 500)%Z) burst →
  (500 ≤ now' - lastTime)%Z →
  foldl (receive JSON_stringify) (this, log) burst = (this, log)
  ∧ onObjectDetected JSON_stringify (Some f) e now' date'
      (foldl (receive JSON_stringify) (this, log) burst).1
    = (mk (<[type e := JSON_stringify e]> (lastEvents this))
          (<[type e := date']> (lastEventsTimes this))
          (lastEventsTimesPrototype this),
       [(f, e)]).
Proof.
  intros Hne He Ht Hburst Hlate.
  assert (Hsame : foldl (receive JSON_stringify) (this, log) burst = (this, log)).
  { induction Hburst as [| a burst [Ha Hnow] _ IH]; [done |].
    simpl. rewrite <- IH at 2. f_equal.
    unfold receive. simpl. rewrite Ha.
    rewrite onObjectDetected_duplicate.
    - simpl. by rewrite app_nil_r.
    - rewrite (isDuplicate_recorded _ _ _ _ Hne He Ht).
      by apply bool_decide_eq_true_2. }
  split; [done |]. rewrite Hsame. simpl.
  rewrite (onObjectDetected_fresh JSON_stringify (Some f)).
  - by rewrite assign_own by by eexists.
  - rewrite (isDuplicate_recorded _ _ _ _ Hne He Ht).
    apply bool_decide_eq_false_2. unfold EVENT_THROTTLE_MS. lia.
Qed.

(** X13. What the callback sees: between two successive deliveries of one
    type other than [__proto__] that carry the same serialization, at
    least 500 ms lie (measured on the recorded times, the clock not
    running backwards inside a call). *)
Theorem equal_deliveries_half_a_second_apart
    (arrivals : list (Arrival Callback))
    (l1 : list Delivery) e1 (d1 : Z) (l2 : list Delivery) e2 (d2 : Z)
    (l3 : list Delivery) :
  (∀ e, JSON_stringify e ≠ "") →
  Forall (λ a, (now a ≤ date a)%Z) arrivals →
  (receiveAll JSON_stringify arrivals).2
  = l1 ++ (e1, d1) :: l2 ++ (e2, d2) :: l3 →
  type e2 ≠ "__proto__" →
  type e1 = type e2 →
  Forall (λ d, type d.1 ≠ type e2) l2 →
  JSON_stringify e1 = JSON_stringify e2 →
  (500 ≤ d2 - d1)%Z.
Proof.
  intros Hne Hclock. revert l1 l2 l3.
  induction arrivals as [| a arrivals IH] using rev_ind;
    intros l1 l2 l3 Hlog Hproto Htype Hbetween Hjson.
  - by destruct l1.
  - apply Forall_app in Hclock as [Hclock Ha].
    apply Forall_inv in Ha. simpl in Ha. specialize (IH Hclock).
    pose proof (records_receiveAll JSON_stringify arrivals) as Hrec.
    unfold receiveAll in Hlog, Hrec, IH. rewrite foldl_app in Hlog.
    simpl in Hlog.
    destruct (foldl (receive JSON_stringify) (initial, []) arrivals)
      as [this log]. simpl in Hrec, IH.
    unfold receive in Hlog. simpl in Hlog.
    destruct (isDuplicate JSON_stringify this (nativeEvent a) (now a)) eqn:Hdup.
    + rewrite (onObjectDetected_duplicate _ _ _ _ _ _ Hdup) in Hlog.
      simpl in Hlog. rewrite app_nil_r in Hlog. by apply (IH l1 l2 l3).
    + rewrite (onObjectDetected_fresh _ _ _ _ _ _ Hdup) in Hlog.
      destruct (callback a) as [f |]; simpl in Hlog;
        [| rewrite app_nil_r in Hlog; by apply (IH l1 l2 l3)].
      destruct l3 as [| y l3 _] using rev_ind.
      * (* the second delivery is the one just made *)
        change (l1 ++ (e1, d1) :: l2 ++ [(e2, d2)])
          with (l1 ++ ((e1, d1) :: l2) ++ [(e2, d2)]) in Hlog.
        rewrite app_assoc in Hlog.
        apply app_inj_tail in Hlog as [Hlog [= <- <-]].
        assert (Hlast : lastDelivered (type (nativeEvent a)) log = Some (e1, d1)).
        { rewrite Hlog. by apply lastDelivered_then_others. }
        assert (Hnot : ¬ Spec.duplicate JSON_stringify log (nativeEvent a) (now a)).
        { intros Hd. apply (isDuplicate_spec _ _ _ _ _ Hne Hrec Hproto) in Hd.
          congruence. }
        destruct (decide (now a - d1 < 500)%Z) as [Hlt |]; [| lia].
        destruct Hnot. by exists e1, d1.
      * (* both deliveries were made before *)
        apply (IH l1 l2 l3); try done.
        assert (Hsplit : l1 ++ (e1, d1) :: l2 ++ (e2, d2) :: l3 ++ [y]
                         = (l1 ++ (e1, d1) :: l2 ++ (e2, d2) :: l3) ++ [y]).
        { rewrite <- app_assoc. simpl. do 2 f_equal. by rewrite <- app_assoc. }
        rewrite Hsplit in Hlog. by apply app_inj_tail in Hlog as [Hlog _].
Qed.

End bar_code_scanner_more.

Section bar_code_scanner_more_examples.

Import BarCodeScanner Examples Cases.

Lemma other_types_untouched_witness :
  (onObjectDetected stringify (Some 7) ean_code 1100 1100
     (onObjectDetected stringify (Some 7) proto_code 1000 1000 initial).1).2
  = (onObjectDetected stringify (Some 7) ean_code 1100 1100 initial).2.
Proof.
  apply (other_types_untouched stringify (Some 7) (Some 7) proto_code 1000 1000
           initial ean_code 1100 1100).
  vm_compute. discriminate.
Defined.

Lemma suppressed_burst_keeps_window_witness :
  foldl (receive stringify)
    ((onObjectDetected stringify (Some 7) qr_code 1000 1000 initial).1,
     [(qr_code, 1000%Z)])
    [{| callback := Some 7; nativeEvent := qr_code; now := 1100; date := 1100 |};
     {| callback := Some 7; nativeEvent := qr_code; now := 1400; date := 1400 |}]
  = ((onObjectDetected stringify (Some 7) qr_code 1000 1000 initial).1,
     [(qr_code, 1000%Z)]).
Proof.
  apply (suppressed_burst_keeps_window stringify _ _ _ qr_code 1000 7 1500 1500).
  - apply stringify_nonempty.
  - vm_compute. reflexivity.
  - vm_compute. reflexivity.
  - repeat constructor; simpl; lia.
  - lia.
Defined.

Lemma equal_deliveries_half_a_second_apart_witness : (500 ≤ 1601 - 1000)%Z.
Proof.
  apply (equal_deliveries_half_a_second_apart stringify
           [{| callback := Some 7; nativeEvent := qr_code;
               now := 1000; date := 1000 |};
            {| callback := Some 7; nativeEvent := qr_code;
               now := 1600; date := 1601 |}]
           [] qr_code 1000 [] qr_code 1601 []).
  - apply stringify_nonempty.
  - repeat constructor; simpl; lia.
  - vm_compute. reflexivity.
  - vm_compute. discriminate.
  - reflexivity.
  - constructor.
  - reflexivity.
Defined.

(** Two equal events of type [__proto__], 100 ms apart: both are
    delivered, since the objects record nothing under that name. *)
Example proto_events_are_never_throttled :
  (receiveAll stringify
     [{| callback := Some 7; nativeEvent := proto_code; now := 1000; date := 1000 |};
      {| callback := Some 7; nativeEvent := proto_code; now := 1100; date := 1100 |}]).2
  = [(proto_code, 1000%Z); (proto_code, 1100%Z)].
Proof. vm_compute. reflexivity. Qed.

End bar_code_scanner_more_examples.

(** ** [BarCodeScanner.scanFromURLAsync] *)

Section scan_from_url_facts.

Import ScanFromURL.

Implicit Types (env : Environment) (url : string) (argument : option Value).

(** X14. The promise is rejected with [UnavailabilityError] exactly when
    the native module has no [scanFromURLAsync]; this is found before the
    arguments are looked at. *)
Theorem unavailability_reported_iff env url argument :
  (∃ moduleName propertyName,
      scanFromURLAsync env url argument
      = throws (UnavailabilityError moduleName propertyName))
  ↔ scanFromURLAsync_defined env = false.
Proof.
  unfold scanFromURLAsync. destruct (scanFromURLAsync_defined env); simpl.
  - split; [| done]. intros (moduleName & propertyName & H).
    repeat case_match; done.
  - split; [done | by eexists _, _].
Qed.

(** X15. The native module is never handed an empty array of types, on no
    platform, and not by the default either; what it is handed goes with
    the url of the call. *)
Theorem native_never_gets_empty_array env url argument u (elements : list string) :
  scanFromURLAsync env url argument = native u (array elements) →
  elements ≠ [] ∧ u = url ∧ scanFromURLAsync_defined env = true.
Proof.
  unfold scanFromURLAsync. destruct (scanFromURLAsync_defined env); [| done].
  simpl. destruct (default (array (BarCodeType_values env)) argument)
    as [[| x l] | tag]; simpl; [done | |];
    repeat case_match; intros [= <- <-]; done.
Qed.

(** X16. On iOS the native module is asked for QR codes only, whatever
    types were requested, and an array of types is accepted exactly when
    it includes the QR type. *)
Theorem ios_scans_qr_only env url argument (elements : list string) :
  Platform_OS env = "ios" →
  scanFromURLAsync_defined env = true →
  (∀ u v, scanFromURLAsync env url argument = native u v →
          v = array [BarCodeType_qr env])
  ∧ (scanFromURLAsync env url (Some (array elements))
     = native url (array [BarCodeType_qr env])
     ↔ BarCodeType_qr env ∈ elements).
Proof.
  intros Hios Hdefined. unfold scanFromURLAsync. rewrite Hios, Hdefined. simpl.
  split.
  - intros u v. repeat case_match; intros [= <- <-]; done.
  - destruct elements as [| x l]; simpl.
    + split; [done | intros H; by apply elem_of_nil in H].
    + case_bool_decide as Hin; simpl; split; done.
Qed.

(** X17. On any other platform the types go to the native module as they
    were given, and all types of the module when none were given. *)
Theorem other_platforms_pass_types_unchanged env url argument :
  Platform_OS env ≠ "ios" →
  scanFromURLAsync_defined env = true →
  default (array (BarCodeType_values env)) argument ≠ array [] →
  scanFromURLAsync env url argument
  = native url (default (array (BarCodeType_values env)) argument).
Proof.
  intros Hos Hdefined Hnonempty. unfold scanFromURLAsync.
  rewrite Hdefined. simpl. rewrite bool_decide_eq_false_2 by done.
  by destruct (default (array (BarCodeType_values env)) argument) as [[| x l] | tag].
Qed.

End scan_from_url_facts.

Section scan_from_url_examples.

Import ScanFromURL Cases.

Lemma unavailability_reported_iff_witness :
  ∃ moduleName propertyName,
    scanFromURLAsync
      {| scanFromURLAsync_defined := false; Platform_OS := "web";
         BarCodeType_qr := "qr"; BarCodeType_values := [] |}
      "file:///code.png" (Some (array []))
    = throws (UnavailabilityError moduleName propertyName).
Proof. apply unavailability_reported_iff. reflexivity. Defined.

Lemma native_never_gets_empty_array_witness :
  ["256"; "32"] ≠ [] ∧ "file:///code.png" = "file:///code.png"
  ∧ scanFromURLAsync_defined on_android = true.
Proof.
  apply (native_never_gets_empty_array on_android "file:///code.png" None).
  vm_compute. reflexivity.
Defined.

Lemma ios_scans_qr_only_witness :
  scanFromURLAsync on_ios "file:///code.png"
    (Some (array ["org.gs1.EAN-13"; "org.iso.QRCode"]))
  = native "file:///code.png" (array ["org.iso.QRCode"]).
Proof.
  apply (ios_scans_qr_only on_ios "file:///code.png" None
           ["org.gs1.EAN-13"; "org.iso.QRCode"] eq_refl eq_refl).
  apply (bool_decide_unpack _). vm_compute. exact I.
Defined.

Lemma other_platforms_pass_types_unchanged_witness :
  scanFromURLAsync on_android "file:///code.png" (Some (array ["32"]))
  = native "file:///code.png" (array ["32"]).
Proof.
  apply (other_platforms_pass_types_unchanged on_android "file:///code.png"
           (Some (array ["32"]))).
  - vm_compute. discriminate.
  - reflexivity.
  - discriminate.
Defined.

End scan_from_url_examples.

(** ** [BarCodeScanner.convertProp] and [convertNativeProps] *)

Section native_props_facts.

Import NativeProps.

Implicit Types (runtime : Runtime) (props : gmap string NativeProps.Value).

Lemma convertNativeProps_lookup runtime (Type_ : Table) props key :
  convertNativeProps runtime Type_ props !! key
  = (λ value, convertProp runtime Type_ value key) <$> props !! key.
Proof.
  unfold convertNativeProps. rewrite map_lookup_imap.
  by destruct (props !! key).
Qed.

Lemma convertProp_other_key runtime (Type_ : Table) value key :
  key ≠ "type" → inherited runtime key = None →
  convertProp runtime Type_ value key = value.
Proof.
  intros Hk Hinherited. unfold convertProp, ConversionTables.
  rewrite lookup_singleton_ne by done. rewrite Hinherited. by destruct value.
Qed.

Lemma convertProp_not_string runtime (Type_ : Table) value key :
  (∀ s, value ≠ VString s) → convertProp runtime Type_ value key = value.
Proof.
  intros Hv. unfold convertProp. destruct value; try done. by destruct (Hv s).
Qed.

Lemma convertProp_type runtime (Type_ : Table) (name : string) :
  convertProp runtime Type_ (VString name) "type" = get runtime Type_ name.
Proof. unfold convertProp, ConversionTables. by rewrite lookup_singleton_eq. Qed.

(** X18. The converted props have the keys of the props; a value that is
    no string is handed on as it is, and so is a string under a key that
    is neither [type] nor a name plain objects inherit. *)
Theorem convertNativeProps_keeps_other_props
    runtime (Type_ : Table) props key value :
  props !! key = Some value →
  (∀ s, value ≠ VString s) ∨ (key ≠ "type" ∧ inherited runtime key = None) →
  dom (convertNativeProps runtime Type_ props) = dom props
  ∧ convertNativeProps runtime Type_ props !! key = Some value.
Proof.
  intros Hlookup Hother. split.
  - apply set_eq. intros k.
    rewrite !elem_of_dom, convertNativeProps_lookup. apply fmap_is_Some.
  - rewrite convertNativeProps_lookup, Hlookup. simpl. f_equal.
    destruct Hother as [Hv | [Hk Hinherited]];
      [by apply convertProp_not_string | by apply convertProp_other_key].
Qed.

(** X19. A [type] given by name is replaced by the constant of that name;
    when [Type] has no constant of that name, by what plain objects
    inherit under the name, and by [undefined] when they inherit nothing. *)
Theorem type_name_is_looked_up runtime (Type_ : Table) props (name : string) :
  props !! "type" = Some (VString name) →
  convertNativeProps runtime Type_ props !! "type"
  = Some match Type_ !! name with
         | Some constant => constant
         | None => match inherited runtime name with
                   | Some reference => VObject reference
                   | None => VUndefined
                   end
         end.
Proof.
  intros Hlookup. rewrite convertNativeProps_lookup, Hlookup.
  cbv [fmap option_fmap option_map]. by rewrite convertProp_type.
Qed.

(** X20. When no constant of [Type] is itself a string and no string prop
    sits under a name plain objects inherit, converting converted props
    changes nothing. *)
Theorem convertNativeProps_idempotent runtime (Type_ : Table) props :
  (∀ name value, Type_ !! name = Some value → ∀ s, value ≠ VString s) →
  (∀ key s, props !! key = Some (VString s) →
            key = "type" ∨ inherited runtime key = None) →
  convertNativeProps runtime Type_ (convertNativeProps runtime Type_ props)
  = convertNativeProps runtime Type_ props.
Proof.
  intros Hconstants Hkeys. apply map_eq. intros key.
  rewrite !convertNativeProps_lookup.
  destruct (props !! key) as [value |] eqn:Hvalue;
    cbv [fmap option_fmap option_map]; [| done]. f_equal.
  destruct value as [| name | n | reference]; try done.
  destruct (Hkeys key name Hvalue) as [-> | Hinherited].
  - apply convertProp_not_string. intros s. rewrite convertProp_type.
    unfold get. destruct (Type_ !! name) as [constant |] eqn:Hname;
      [by apply (Hconstants name) |].
    by destruct (inherited runtime name).
  - destruct (decide (key = "type")) as [-> | Hkey].
    + apply convertProp_not_string. intros s. rewrite convertProp_type.
      unfold get. destruct (Type_ !! name) as [constant |] eqn:Hname;
        [by apply (Hconstants name) |].
      by destruct (inherited runtime name).
    + by rewrite !convertProp_other_key.
Qed.

End native_props_facts.

Section native_props_examples.

Import NativeProps Cases.

Lemma convertNativeProps_keeps_other_props_witness :
  dom (convertNativeProps sample_runtime camera_types scanner_props)
  = dom scanner_props
  ∧ convertNativeProps sample_runtime camera_types scanner_props !! "testID"
    = Some (VString "scanner").
Proof.
  apply (convertNativeProps_keeps_other_props sample_runtime camera_types
           scanner_props).
  - vm_compute. reflexivity.
  - right. split; [discriminate | reflexivity].
Defined.

Lemma type_name_is_looked_up_witness :
  convertNativeProps sample_runtime camera_types scanner_props !! "type"
  = Some (VNumber 1).
Proof.
  apply (type_name_is_looked_up sample_runtime camera_types scanner_props "front").
  vm_compute. reflexivity.
Defined.

Lemma convertNativeProps_idempotent_witness :
  convertNativeProps sample_runtime camera_types
    (convertNativeProps sample_runtime camera_types scanner_props)
  = convertNativeProps sample_runtime camera_types scanner_props.
Proof.
  apply convertNativeProps_idempotent.
  - intros name value H s. unfold camera_types in H.
    apply lookup_insert_Some in H as [[_ <-] | [_ H]]; [discriminate |].
    apply lookup_insert_Some in H as [[_ <-] | [_ H]]; [discriminate |].
    by rewrite lookup_empty in H.
  - intros key s H. unfold scanner_props in H.
    apply lookup_insert_Some in H as [[<- _] | [_ H]]; [by left |].
    apply lookup_insert_Some in H as [[_ [=]] | [_ H]].
    apply lookup_insert_Some in H as [[<- _] | [_ H]]; [by right |].
    by rewrite lookup_empty in H.
Defined.

(** A string prop under an inherited name is converted: on this runtime
    [constructor="name"] becomes ["Object"], and [undefined] on a second
    pass. *)
Example inherited_name_is_converted :
  convertNativeProps sample_runtime camera_types {["constructor" := VString "name"]}
  = {["constructor" := VString "Object"]}
  ∧ convertNativeProps sample_runtime camera_types
      {["constructor" := VString "Object"]}
    = {["constructor" := VUndefined]}.
Proof. split; vm_compute; reflexivity. Qed.

End native_props_examples.
